(** * MAD.NET: the managed decoder session of [MAD.h]

    [MAD.h] declares the public enumeration [MAD::Error] and the class
    [MAD::Decoder], a session object holding three native pointers
    ([_Stream], [_Frame], [_Synth]) to the state blocks of the decoding
    engine.  Every method is a forwarding call into the engine or a read of
    one field of one block.

    The embedding keeps that shape: a native heap of tagged blocks, the
    session object with its three pointers, a state-and-failure monad for
    the method bodies (dereferencing a null or dangling pointer has no
    defined result), and the engine as an interface the wrapper is
    parametric in. *)

From Stdlib Require Import ZArith String List Lia.
Local Open Scope string_scope.
From stdpp Require Import base option gmap.

Local Open Scope Z_scope.

Module MAD.

(** ** [public enum class Error]

    The enumerators, in declaration order.  A value of a managed
    enumeration is its underlying [int]; [Error.value] gives the number the
    source assigns to each name and [Error.of_value] reads a number back as
    a name, when it has one. *)
Module Error.

Inductive t : Set :=
| None
| BufferLength
| BufferData
| Memory
| LostSync
| BadLayer
| BadBitRate
| BadSampleRate
| BadEmphasis
| BadCRC
| BadBitAlloc
| BadScaleFactor
| BadMode
| BadFrameLength
| BadBigValues
| BadBlockType
| BadSCFSI
| BadData
| BadAudioLength
| BadHuffmanTable
| BadHuffmanData
| BadStero.

Definition value (e : t) : Z :=
  match e with
  | None => 0x0000
  | BufferLength => 0x0001
  | BufferData => 0x0002
  | Memory => 0x0031
  | LostSync => 0x0101
  | BadLayer => 0x0102
  | BadBitRate => 0x0103
  | BadSampleRate => 0x0104
  | BadEmphasis => 0x0105
  | BadCRC => 0x0201
  | BadBitAlloc => 0x0211
  | BadScaleFactor => 0x0221
  | BadMode => 0x0222
  | BadFrameLength => 0x0231
  | BadBigValues => 0x0232
  | BadBlockType => 0x0233
  | BadSCFSI => 0x0234
  | BadData => 0x0235
  | BadAudioLength => 0x0236
  | BadHuffmanTable => 0x0237
  | BadHuffmanData => 0x0238
  | BadStero => 0x0239
  end.

Definition all : list t :=
  [ None; BufferLength; BufferData; Memory; LostSync; BadLayer; BadBitRate;
    BadSampleRate; BadEmphasis; BadCRC; BadBitAlloc; BadScaleFactor;
    BadMode; BadFrameLength; BadBigValues; BadBlockType; BadSCFSI; BadData;
    BadAudioLength; BadHuffmanTable; BadHuffmanData; BadStero ].

Definition of_value (z : Z) : option t :=
  List.find (fun e => value e =? z) all.

#[global] Instance eq_dec : EqDecision t.
Proof. solve_decision. Defined.

End Error.

(** The two tiers of the taxonomy, by name. *)
Definition fatal_errors : list Error.t :=
  [ Error.BufferLength; Error.BufferData; Error.Memory ].

Definition stream_content_errors : list Error.t :=
  [ Error.LostSync; Error.BadLayer; Error.BadBitRate; Error.BadSampleRate;
    Error.BadEmphasis; Error.BadCRC; Error.BadBitAlloc; Error.BadScaleFactor;
    Error.BadMode; Error.BadFrameLength; Error.BadBigValues;
    Error.BadBlockType; Error.BadSCFSI; Error.BadData; Error.BadAudioLength;
    Error.BadHuffmanTable; Error.BadHuffmanData; Error.BadStero ].

(** ** Machine integers and addresses *)

(** Conversion to the managed [int] (32 bits, two's complement). *)
Definition to_int (z : Z) : Z := (z + 2 ^ 31) mod 2 ^ 32 - 2 ^ 31.

(** An [int] returned where a [bool] is expected: nonzero is true. *)
Definition bool_of_int (z : Z) : bool := negb (z =? 0).

(** A [void*] handed to or from the caller: an address in caller memory. *)
Definition ptr := Z.

(** A block of the native heap is named by its address; a native pointer
    field is either null or such an address. *)
Definition loc := positive.

(** A pointer into a native block.  The only one the wrapper ever forms is
    the address of the member array [pcm.samples] of a synthesiser block:
    it is fixed by the block's address. *)
Inductive member_ptr : Set :=
| pcm_samples_of (synth : loc).

(** Conversion of an [int] argument to the engine's [unsigned long]
    parameter (32 bits under Visual C++, the compiler of C++/CLI): a
    negative value wraps to a large positive one. *)
Definition to_unsigned_long (z : Z) : Z := z mod 2 ^ 32.

(** ** The engine's side of the boundary *)

(** Modelled from the spec: the macro [MAD_RECOVERABLE] comes from the
    engine's header, which is not part of the wrapper's sources.  The spec
    gives every code a fixed recoverability flag in two tiers, fatal (buffer
    invalid, out of memory) and recoverable (stream-content malformation);
    the numbering keeps the first tier on page [0x00] and the second on pages
    [0x01] and [0x02], and the engine's macro is the page test
    [((error) & 0xff00)], a C truth value. *)
Definition MAD_RECOVERABLE (error : Z) : Z := Z.land error 0xff00.

(** Modelled from the spec: the engine's own enumeration of error codes
    ([enum mad_error] of the engine's header, not part of the wrapper's
    sources).  The spec lists the 21 codes by name, in this order, next to
    the no-error code; it prints no numbers, and the numbers below are the
    ones of the engine's public header (libmad 0.15.1b). *)
Inductive mad_error : Set :=
| MAD_ERROR_NONE
| MAD_ERROR_BUFLEN
| MAD_ERROR_BUFPTR
| MAD_ERROR_NOMEM
| MAD_ERROR_LOSTSYNC
| MAD_ERROR_BADLAYER
| MAD_ERROR_BADBITRATE
| MAD_ERROR_BADSAMPLERATE
| MAD_ERROR_BADEMPHASIS
| MAD_ERROR_BADCRC
| MAD_ERROR_BADBITALLOC
| MAD_ERROR_BADSCALEFACTOR
| MAD_ERROR_BADMODE
| MAD_ERROR_BADFRAMELEN
| MAD_ERROR_BADBIGVALUES
| MAD_ERROR_BADBLOCKTYPE
| MAD_ERROR_BADSCFSI
| MAD_ERROR_BADDATAPTR
| MAD_ERROR_BADPART3LEN
| MAD_ERROR_BADHUFFTABLE
| MAD_ERROR_BADHUFFDATA
| MAD_ERROR_BADSTEREO.

Definition mad_error_value (m : mad_error) : Z :=
  match m with
  | MAD_ERROR_NONE => 0x0000
  | MAD_ERROR_BUFLEN => 0x0001
  | MAD_ERROR_BUFPTR => 0x0002
  | MAD_ERROR_NOMEM => 0x0031
  | MAD_ERROR_LOSTSYNC => 0x0101
  | MAD_ERROR_BADLAYER => 0x0102
  | MAD_ERROR_BADBITRATE => 0x0103
  | MAD_ERROR_BADSAMPLERATE => 0x0104
  | MAD_ERROR_BADEMPHASIS => 0x0105
  | MAD_ERROR_BADCRC => 0x0201
  | MAD_ERROR_BADBITALLOC => 0x0211
  | MAD_ERROR_BADSCALEFACTOR => 0x0221
  | MAD_ERROR_BADMODE => 0x0222
  | MAD_ERROR_BADFRAMELEN => 0x0231
  | MAD_ERROR_BADBIGVALUES => 0x0232
  | MAD_ERROR_BADBLOCKTYPE => 0x0233
  | MAD_ERROR_BADSCFSI => 0x0234
  | MAD_ERROR_BADDATAPTR => 0x0235
  | MAD_ERROR_BADPART3LEN => 0x0236
  | MAD_ERROR_BADHUFFTABLE => 0x0237
  | MAD_ERROR_BADHUFFDATA => 0x0238
  | MAD_ERROR_BADSTEREO => 0x0239
  end.

(** The public name the wrapper gives to each engine code. *)
Definition public_name (m : mad_error) : Error.t :=
  match m with
  | MAD_ERROR_NONE => Error.None
  | MAD_ERROR_BUFLEN => Error.BufferLength
  | MAD_ERROR_BUFPTR => Error.BufferData
  | MAD_ERROR_NOMEM => Error.Memory
  | MAD_ERROR_LOSTSYNC => Error.LostSync
  | MAD_ERROR_BADLAYER => Error.BadLayer
  | MAD_ERROR_BADBITRATE => Error.BadBitRate
  | MAD_ERROR_BADSAMPLERATE => Error.BadSampleRate
  | MAD_ERROR_BADEMPHASIS => Error.BadEmphasis
  | MAD_ERROR_BADCRC => Error.BadCRC
  | MAD_ERROR_BADBITALLOC => Error.BadBitAlloc
  | MAD_ERROR_BADSCALEFACTOR => Error.BadScaleFactor
  | MAD_ERROR_BADMODE => Error.BadMode
  | MAD_ERROR_BADFRAMELEN => Error.BadFrameLength
  | MAD_ERROR_BADBIGVALUES => Error.BadBigValues
  | MAD_ERROR_BADBLOCKTYPE => Error.BadBlockType
  | MAD_ERROR_BADSCFSI => Error.BadSCFSI
  | MAD_ERROR_BADDATAPTR => Error.BadData
  | MAD_ERROR_BADPART3LEN => Error.BadAudioLength
  | MAD_ERROR_BADHUFFTABLE => Error.BadHuffmanTable
  | MAD_ERROR_BADHUFFDATA => Error.BadHuffmanData
  | MAD_ERROR_BADSTEREO => Error.BadStero
  end.

Definition mad_errors : list mad_error :=
  [ MAD_ERROR_NONE; MAD_ERROR_BUFLEN; MAD_ERROR_BUFPTR; MAD_ERROR_NOMEM;
    MAD_ERROR_LOSTSYNC; MAD_ERROR_BADLAYER; MAD_ERROR_BADBITRATE;
    MAD_ERROR_BADSAMPLERATE; MAD_ERROR_BADEMPHASIS; MAD_ERROR_BADCRC;
    MAD_ERROR_BADBITALLOC; MAD_ERROR_BADSCALEFACTOR; MAD_ERROR_BADMODE;
    MAD_ERROR_BADFRAMELEN; MAD_ERROR_BADBIGVALUES; MAD_ERROR_BADBLOCKTYPE;
    MAD_ERROR_BADSCFSI; MAD_ERROR_BADDATAPTR; MAD_ERROR_BADPART3LEN;
    MAD_ERROR_BADHUFFTABLE; MAD_ERROR_BADHUFFDATA; MAD_ERROR_BADSTEREO ].

(** The state blocks.  The wrapper reads [this_frame], [next_frame] and
    [error] of the stream and [pcm.samplerate], [pcm.channels] and
    [pcm.samples] of the synthesiser; everything else in a block is the
    engine's business and is carried as one opaque component.  The frame
    block is never looked into.  [error] holds the number of a
    [mad_error].  [samples] is the array of PCM samples itself (per
    channel), a member of the block: the wrapper takes its address and
    never looks at its contents. *)
Record mad_stream {stream_priv : Type} : Type := {
  this_frame : ptr;
  next_frame : ptr;
  error : Z;
  stream_rest : stream_priv
}.
Arguments mad_stream : clear implicits.

(** [stream->error = value]. *)
Definition with_error {stream_priv : Type} (s : mad_stream stream_priv)
    (value : Z) : mad_stream stream_priv :=
  {| this_frame := this_frame s; next_frame := next_frame s;
     error := value; stream_rest := stream_rest s |}.

Record mad_pcm : Type := {
  samplerate : Z;
  channels : Z;
  samples : list (list Z)
}.

Record mad_synth {synth_priv : Type} : Type := {
  pcm : mad_pcm;
  synth_rest : synth_priv
}.
Arguments mad_synth : clear implicits.

(** The entry points of the engine that [MAD.h] calls.  Functions taking a
    pointer to a block are functions from the block to the block they leave
    behind; [mad_frame_decode] also returns its [int].  The [zero_] fields
    are the value-initialised blocks that [new T()] produces.

    An instance stands for the engine within its contract, together with
    the caller memory it reads: the input installed by [SetInput] "should
    remain static and fixed during decoding", so what a decode reads there
    is part of the function.  A call outside the contract (a buffer that is
    not readable) and the buffers the engine allocates and frees for itself
    are not described; the statements below say what the wrapper does with
    whatever the engine returns. *)
Class Engine (stream_priv mad_frame synth_priv : Type) : Type := {
  zero_stream : mad_stream stream_priv;
  zero_frame : mad_frame;
  zero_synth : mad_synth synth_priv;
  mad_stream_init : mad_stream stream_priv -> mad_stream stream_priv;
  mad_frame_init : mad_frame -> mad_frame;
  mad_synth_init : mad_synth synth_priv -> mad_synth synth_priv;
  mad_stream_finish : mad_stream stream_priv -> mad_stream stream_priv;
  mad_frame_finish : mad_frame -> mad_frame;
  mad_synth_finish : mad_synth synth_priv -> mad_synth synth_priv;
  mad_stream_buffer : mad_stream stream_priv -> ptr -> Z -> mad_stream stream_priv;
  mad_frame_decode :
    mad_frame -> mad_stream stream_priv -> Z * mad_frame * mad_stream stream_priv;
  mad_synth_frame :
    mad_synth synth_priv -> mad_frame -> mad_synth synth_priv * mad_frame;
  mad_errorstr : Z -> string
}.

(** Modelled from the spec: [mad_stream_errorstr] is an engine function that
    is not part of the wrapper's sources.  The spec gives every error code a
    fixed message string, so the function is the engine's message table
    [mad_errorstr] read at the stream's error code. *)
Definition mad_stream_errorstr `{Engine stream_priv mad_frame synth_priv}
    (stream : mad_stream stream_priv) : string :=
  mad_errorstr (error stream).

(** ** [public ref class Decoder] *)

(** How a member leaves: by returning, or with [std::bad_alloc] on its
    way out of a [new]. *)
Inductive outcome (A : Type) : Type :=
| returned (a : A)
| bad_alloc.
Arguments returned {A} a.
Arguments bad_alloc {A}.

Section Decoder.
Context {stream_priv mad_frame synth_priv : Type}.
Context `{!Engine stream_priv mad_frame synth_priv}.

(** What a native pointer of the session can point to. *)
Inductive block : Type :=
| BStream (s : mad_stream stream_priv)
| BFrame (f : mad_frame)
| BSynth (y : mad_synth synth_priv).

(** The private fields; [None] is the null pointer a fresh object holds. *)
Record Decoder : Type := {
  _Stream : option loc;
  _Frame : option loc;
  _Synth : option loc
}.

(** The native heap together with the session object. *)
Record state : Type := {
  heap : gmap loc block;
  this : Decoder
}.

(** Method bodies: a state transformer that may have no defined result. *)
Definition M (A : Type) : Type := state -> option (A * state).

Definition ret {A} (a : A) : M A := fun σ => Some (a, σ).
Definition bind {A B} (m : M A) (k : A -> M B) : M B :=
  fun σ => match m σ with Some (a, σ') => k a σ' | None => None end.
Definition undefined {A} : M A := fun _ => None.

Notation "x <~ m ;; k" := (bind m (fun x => k))
  (at level 100, m at next level, right associativity).
Notation "m ;;; k" := (bind m (fun _ => k))
  (at level 100, right associativity).

(** The value a computation returns in a state, if it has one. *)
Definition observe {A} (m : M A) (σ : state) : option A := fst <$> m σ.

(** [new T()] when the free store has room: a block at an address that is
    not in use.  Exhaustion is [new_within] below. *)
Definition new (b : block) : M loc := fun σ =>
  let l := fresh (dom (heap σ)) in
  Some (l, {| heap := <[l := b]> (heap σ); this := this σ |}).

Definition get_this : M Decoder := fun σ => Some (this σ, σ).
Definition set_this (d : Decoder) : M unit := fun σ =>
  Some (tt, {| heap := heap σ; this := d |}).

Definition deref (p : option loc) : M block := fun σ =>
  match p with
  | Some l => match heap σ !! l with Some b => Some (b, σ) | None => None end
  | None => None
  end.

Definition assign (p : option loc) (b : block) : M unit := fun σ =>
  match p with
  | Some l =>
      match heap σ !! l with
      | Some _ => Some (tt, {| heap := <[l := b]> (heap σ); this := this σ |})
      | None => None
      end
  | None => None
  end.

(** [this->_Stream], [this->_Frame], [this->_Synth] as lvalues. *)
Definition load_stream : M (mad_stream stream_priv) :=
  d <~ get_this ;; b <~ deref (_Stream d) ;;
  match b with BStream s => ret s | _ => undefined end.
Definition load_frame : M mad_frame :=
  d <~ get_this ;; b <~ deref (_Frame d) ;;
  match b with BFrame f => ret f | _ => undefined end.
Definition load_synth : M (mad_synth synth_priv) :=
  d <~ get_this ;; b <~ deref (_Synth d) ;;
  match b with BSynth y => ret y | _ => undefined end.

Definition store_stream (s : mad_stream stream_priv) : M unit :=
  d <~ get_this ;; assign (_Stream d) (BStream s).
Definition store_frame (f : mad_frame) : M unit :=
  d <~ get_this ;; assign (_Frame d) (BFrame f).
Definition store_synth (y : mad_synth synth_priv) : M unit :=
  d <~ get_this ;; assign (_Synth d) (BSynth y).

Definition Initialize : M unit :=
  ls <~ new (BStream zero_stream) ;;
  d <~ get_this ;;
  set_this {| _Stream := Some ls; _Frame := _Frame d; _Synth := _Synth d |} ;;;
  lf <~ new (BFrame zero_frame) ;;
  d <~ get_this ;;
  set_this {| _Stream := _Stream d; _Frame := Some lf; _Synth := _Synth d |} ;;;
  ly <~ new (BSynth zero_synth) ;;
  d <~ get_this ;;
  set_this {| _Stream := _Stream d; _Frame := _Frame d; _Synth := Some ly |} ;;;
  s <~ load_stream ;; store_stream (mad_stream_init s) ;;;
  f <~ load_frame ;; store_frame (mad_frame_init f) ;;;
  y <~ load_synth ;; store_synth (mad_synth_init y).

(** [new T()] against a free store with room for [avail] more blocks. *)
Definition new_within (avail : nat) (b : block) : M (outcome loc) :=
  match avail with
  | O => ret bad_alloc
  | S _ => l <~ new b ;; ret (returned l)
  end.

(** [Initialize] against such a free store: a [new] that throws ends the
    method there, before its assignment, with the earlier statements
    done and the later ones not. *)
Definition Initialize_within (avail : nat) : M (outcome unit) :=
  r <~ new_within avail (BStream zero_stream) ;;
  match r with
  | bad_alloc => ret bad_alloc
  | returned ls =>
    d <~ get_this ;;
    set_this {| _Stream := Some ls; _Frame := _Frame d; _Synth := _Synth d |} ;;;
    r <~ new_within (avail - 1) (BFrame zero_frame) ;;
    match r with
    | bad_alloc => ret bad_alloc
    | returned lf =>
      d <~ get_this ;;
      set_this {| _Stream := _Stream d; _Frame := Some lf; _Synth := _Synth d |} ;;;
      r <~ new_within (avail - 2) (BSynth zero_synth) ;;
      match r with
      | bad_alloc => ret bad_alloc
      | returned ly =>
        d <~ get_this ;;
        set_this {| _Stream := _Stream d; _Frame := _Frame d; _Synth := Some ly |} ;;;
        s <~ load_stream ;; store_stream (mad_stream_init s) ;;;
        f <~ load_frame ;; store_frame (mad_frame_init f) ;;;
        y <~ load_synth ;; store_synth (mad_synth_init y) ;;;
        ret (returned tt)
      end
    end
  end.

Definition Terminate : M unit :=
  s <~ load_stream ;; store_stream (mad_stream_finish s) ;;;
  f <~ load_frame ;; store_frame (mad_frame_finish f) ;;;
  y <~ load_synth ;; store_synth (mad_synth_finish y).

Definition SetInput (Buffer : ptr) (Length : Z) : M unit :=
  s <~ load_stream ;;
  store_stream (mad_stream_buffer s Buffer (to_unsigned_long Length)).

Definition FrameSampleCount : Z := 1152.

Definition CurrentFrame : M ptr := s <~ load_stream ;; ret (this_frame s).
Definition NextFrame : M ptr := s <~ load_stream ;; ret (next_frame s).
Definition SampleRate : M Z := y <~ load_synth ;; ret (to_int (samplerate (pcm y))).
Definition Channels : M Z := y <~ load_synth ;; ret (to_int (channels (pcm y))).
Definition Output : M member_ptr :=
  d <~ get_this ;; _ <~ deref (_Synth d) ;;
  match _Synth d with
  | Some l => ret (pcm_samples_of l)
  | None => undefined
  end.

(** The property [Error]: both casts keep the number. *)
Definition Error_get : M Z := s <~ load_stream ;; ret (error s).
Definition Error_set (value : Z) : M unit :=
  s <~ load_stream ;; store_stream (with_error s value).

Definition ErrorRecoverable : M bool :=
  s <~ load_stream ;; ret (bool_of_int (MAD_RECOVERABLE (error s))).

Definition ErrorMessage : M string :=
  s <~ load_stream ;; ret (mad_stream_errorstr s).

Definition DecodeFrame : M bool :=
  f <~ load_frame ;; s <~ load_stream ;;
  let '(rc, f', s') := mad_frame_decode f s in
  store_frame f' ;;; store_stream s' ;;;
  ret (negb (rc =? -1)).

Definition SynthFrame : M unit :=
  y <~ load_synth ;; f <~ load_frame ;;
  let '(y', f') := mad_synth_frame y f in
  store_synth y' ;;; store_frame f'.

(** A live session: each of the three pointers dereferences to a block
    of its kind.  This is the state of an object between [Initialize] and
    the end of its use; on any other state the methods dereference a null
    or dangling pointer and have no defined result. *)
Definition session (σ : state) (s : mad_stream stream_priv) (f : mad_frame)
    (y : mad_synth synth_priv) : Prop :=
  observe load_stream σ = Some s ∧
  observe load_frame σ = Some f ∧
  observe load_synth σ = Some y.

(** The same, with the three addresses named. *)
Definition layout (σ : state) (ls lf ly : loc) (s : mad_stream stream_priv)
    (f : mad_frame) (y : mad_synth synth_priv) : Prop :=
  this σ = {| _Stream := Some ls; _Frame := Some lf; _Synth := Some ly |} ∧
  heap σ !! ls = Some (BStream s) ∧
  heap σ !! lf = Some (BFrame f) ∧
  heap σ !! ly = Some (BSynth y).

(** The state after writing block [b] at address [l]. *)
Definition written (σ : state) (l : loc) (b : block) : state :=
  {| heap := <[l := b]> (heap σ); this := this σ |}.

(** The object as its constructor leaves it, on a given heap. *)
Definition fresh_object (h : gmap loc block) : state :=
  {| heap := h; this := {| _Stream := None; _Frame := None; _Synth := None |} |}.

(** What a caller finds behind an [Output] pointer: the sample array of
    the synthesiser block it points into. *)
Definition sample_block (p : member_ptr) (σ : state) : option (list (list Z)) :=
  match p with
  | pcm_samples_of l =>
      match heap σ !! l with
      | Some (BSynth y) => Some (samples (pcm y))
      | _ => None
      end
  end.

(** The same native heap, seen from another session object. *)
Definition as_object (d : Decoder) (σ : state) : state :=
  {| heap := heap σ; this := d |}.

(** A caller's use of one object: the public members, called in any
    order.  A getter's value is dropped; what is kept is the state. *)
Inductive call : Type :=
| call_Initialize
| call_Terminate
| call_SetInput (Buffer : ptr) (Length : Z)
| call_CurrentFrame
| call_NextFrame
| call_SampleRate
| call_Channels
| call_Output
| call_Error_get
| call_Error_set (value : Z)
| call_ErrorRecoverable
| call_ErrorMessage
| call_DecodeFrame
| call_SynthFrame.

Definition exec (c : call) : M unit :=
  match c with
  | call_Initialize => Initialize
  | call_Terminate => Terminate
  | call_SetInput Buffer Length => SetInput Buffer Length
  | call_CurrentFrame => CurrentFrame ;;; ret tt
  | call_NextFrame => NextFrame ;;; ret tt
  | call_SampleRate => SampleRate ;;; ret tt
  | call_Channels => Channels ;;; ret tt
  | call_Output => Output ;;; ret tt
  | call_Error_get => Error_get ;;; ret tt
  | call_Error_set value => Error_set value
  | call_ErrorRecoverable => ErrorRecoverable ;;; ret tt
  | call_ErrorMessage => ErrorMessage ;;; ret tt
  | call_DecodeFrame => DecodeFrame ;;; ret tt
  | call_SynthFrame => SynthFrame
  end.

Fixpoint exec_all (cs : list call) : M unit :=
  match cs with
  | [] => ret tt
  | c :: cs => exec c ;;; exec_all cs
  end.

Definition is_Initialize (c : call) : bool :=
  match c with call_Initialize => true | _ => false end.

End Decoder.

Notation "x <~ m ;; k" := (bind m (fun x => k))
  (at level 100, m at next level, right associativity).
Notation "m ;;; k" := (bind m (fun _ => k))
  (at level 100, right associativity).

(** ** A small engine to run the wrapper on

    An executable instance of the interface: the stream's private part is the
    installed buffer (start, bytes left), a frame is the count of frames
    decoded so far and the synthesiser's private part is its filter phase.
    Decoding consumes four bytes per frame and fails on a short buffer. *)
Module Demo.

Definition stream := mad_stream (ptr * Z).
Definition synth := mad_synth Z.

Definition decode (f : Z) (s : stream) : Z * Z * stream :=
  let '(buf, len) := stream_rest s in
  if len <=? 0 then (-1, f, with_error s 0x0001)
  else if len <? 4 then (-1, f, with_error s 0x0101)
  else (0, f + 1,
        {| this_frame := next_frame s; next_frame := next_frame s + 4;
           error := error s; stream_rest := (buf, len - 4) |}).

Definition synthesise (y : synth) (f : Z) : synth * Z :=
  ({| pcm := {| samplerate := 44100; channels := 2;
                samples := [[f; synth_rest y]; [f; synth_rest y]] |};
      synth_rest := (synth_rest y + 1) mod 16 |}, f).

Definition message (e : Z) : string :=
  if e =? 0x0000 then "no error"
  else if e =? 0x0001 then "input buffer too small (or EOF)"
  else if e =? 0x0101 then "lost synchronization"
  else "unknown".

#[global] Instance engine : Engine (ptr * Z) Z Z := {|
  zero_stream := {| this_frame := 0; next_frame := 0; error := 0;
                    stream_rest := (0, 0) |};
  zero_frame := 0;
  zero_synth := {| pcm := {| samplerate := 0; channels := 0; samples := [] |};
                   synth_rest := 0 |};
  mad_stream_init := fun s => s;
  mad_frame_init := fun f => f;
  mad_synth_init := fun y =>
    {| pcm := {| samplerate := 0; channels := 0; samples := [[0]; [0]] |};
       synth_rest := 0 |};
  mad_stream_finish := fun s => s;
  mad_frame_finish := fun f => f;
  mad_synth_finish := fun y => y;
  mad_stream_buffer := fun s b l =>
    {| this_frame := b; next_frame := b; error := error s;
       stream_rest := (b, l) |};
  mad_frame_decode := decode;
  mad_synth_frame := synthesise;
  mad_errorstr := message
|}.

(** A session right after [Initialize], and one with eight bytes of
    input installed at address 1000. *)
Definition session_state : Type := @state (ptr * Z) Z Z.

Definition run {A} (m : @M (ptr * Z) Z Z A) (σ : session_state) : session_state :=
  match m σ with Some (_, σ') => σ' | None => σ end.

Definition opened : session_state := run Initialize (fresh_object ∅).
Definition fed : session_state := run (SetInput 1000 8) opened.

Definition opened_stream : stream := mad_stream_init zero_stream.
Definition opened_synth : synth := mad_synth_init zero_synth.
Definition fed_stream : stream := mad_stream_buffer opened_stream 1000 8.

(** A session whose decode failed on two stray bytes of input. *)
Definition short : session_state :=
  run DecodeFrame (run (SetInput 1000 2) opened).
Definition short_stream : stream :=
  with_error (mad_stream_buffer opened_stream 1000 2) 0x0101.

(** A second object initialised on the heap of the first. *)
Definition second : session_state :=
  run Initialize (fresh_object (heap opened)).

End Demo.

(** ** The error taxonomy *)

Lemma Error_all_complete (e : Error.t) : e ∈ Error.all.
Proof. destruct e; unfold Error.all; set_solver. Qed.

Lemma mad_errors_complete (m : mad_error) : m ∈ mad_errors.
Proof. destruct m; unfold mad_errors; set_solver. Qed.

Lemma Error_of_value_value (e : Error.t) :
  Error.of_value (Error.value e) = Some e.
Proof. by destruct e. Qed.

Lemma Error_value_inj (e1 e2 : Error.t) :
  Error.value e1 = Error.value e2 → e1 = e2.
Proof.
  intros H. apply (f_equal Error.of_value) in H.
  rewrite !Error_of_value_value in H. congruence.
Qed.

Lemma public_name_inj (m1 m2 : mad_error) :
  public_name m1 = public_name m2 → m1 = m2.
Proof. destruct m1, m2; simpl; congruence. Qed.

(** The page test on the number of each public name. *)
Lemma recoverable_by_name (e : Error.t) :
  bool_of_int (MAD_RECOVERABLE (Error.value e)) =
  bool_decide (e ∈ stream_content_errors).
Proof. destruct e; vm_compute; reflexivity. Qed.

Lemma fatal_not_stream_content (e : Error.t) :
  e ∈ fatal_errors → e ∉ stream_content_errors.
Proof.
  intros Hf Hc.
  assert (bool_decide (e ∈ fatal_errors) && bool_decide (e ∈ stream_content_errors)
          = true) as H
    by (apply andb_true_iff; split; by apply bool_decide_eq_true).
  destruct e; vm_compute in H; discriminate.
Qed.

(** C5. The public enumeration has exactly 22 members, [None] and the 21
    codes in the order the spec lists them; they are the public names of the
    engine's 22 codes, one each, and the number of every public name is the
    engine's number for that code.  No two names share a number, and a
    number read back as a name gives the name it came from, so the casts of
    the [Error] property translate nothing. *)
Theorem Error_enumeration_is_engine_taxonomy :
  length Error.all = 22%nat ∧
  (∀ e : Error.t, e ∈ Error.all) ∧
  NoDup Error.all ∧
  (∀ m : mad_error, m ∈ mad_errors) ∧
  public_name <$> mad_errors = Error.all ∧
  (∀ m : mad_error, Error.value (public_name m) = mad_error_value m) ∧
  (∀ m : mad_error, Error.of_value (mad_error_value m) = Some (public_name m)) ∧
  NoDup (Error.value <$> Error.all) ∧
  Error.value Error.None = 0.
Proof.
  split; [reflexivity|]. split; [apply Error_all_complete|].
  assert (NoDup (Error.value <$> Error.all)) as Hnd.
  { apply (bool_decide_eq_true_1 _). by vm_compute. }
  split; [exact (NoDup_fmap_1 _ _ Hnd)|].
  split; [apply mad_errors_complete|]. split; [reflexivity|].
  split; [by intros []|]. split; [by intros []|]. split; [exact Hnd|].
  reflexivity.
Qed.

(** ** Running the primitives on a live session *)

Section Session.
Context {stream_priv mad_frame synth_priv : Type}.
Context `{!Engine stream_priv mad_frame synth_priv}.

Local Abbreviation state := (@state stream_priv mad_frame synth_priv).
Implicit Types (σ : state) (ls lf ly : loc).
Implicit Types (s : mad_stream stream_priv) (f : mad_frame).
Implicit Types (y : mad_synth synth_priv).

Lemma layout_distinct σ ls lf ly s f y :
  layout σ ls lf ly s f y → ls ≠ lf ∧ ls ≠ ly ∧ lf ≠ ly.
Proof.
  intros (_ & Hs & Hf & Hy).
  repeat split; intros ->; congruence.
Qed.

Lemma session_layout σ s f y :
  session σ s f y ↔ ∃ ls lf ly, layout σ ls lf ly s f y.
Proof.
  unfold session, layout, observe, load_stream, load_frame, load_synth,
    bind, get_this, deref, ret, undefined.
  destruct σ as [h [ps pf py]]; simpl. split.
  - intros (Hs & Hf & Hy).
    destruct ps as [ls|]; [|discriminate].
    destruct pf as [lf|]; [|discriminate].
    destruct py as [ly|]; [|discriminate].
    exists ls, lf, ly.
    destruct (h !! ls) as [[]|]; try discriminate.
    destruct (h !! lf) as [[]|]; try discriminate.
    destruct (h !! ly) as [[]|]; try discriminate.
    simpl in *. repeat split; congruence.
  - intros (ls & lf & ly & Ht & Hs & Hf & Hy).
    injection Ht as -> -> ->. rewrite Hs, Hf, Hy. done.
Qed.

Lemma load_stream_layout σ ls lf ly s f y :
  layout σ ls lf ly s f y → load_stream σ = Some (s, σ).
Proof.
  intros (Ht & Hs & _). unfold load_stream, bind, get_this, deref, ret.
  rewrite Ht; simpl. by rewrite Hs.
Qed.

Lemma load_frame_layout σ ls lf ly s f y :
  layout σ ls lf ly s f y → load_frame σ = Some (f, σ).
Proof.
  intros (Ht & _ & Hf & _). unfold load_frame, bind, get_this, deref, ret.
  rewrite Ht; simpl. by rewrite Hf.
Qed.

Lemma load_synth_layout σ ls lf ly s f y :
  layout σ ls lf ly s f y → load_synth σ = Some (y, σ).
Proof.
  intros (Ht & _ & _ & Hy). unfold load_synth, bind, get_this, deref, ret.
  rewrite Ht; simpl. by rewrite Hy.
Qed.

Lemma store_stream_layout σ ls lf ly s f y s' :
  layout σ ls lf ly s f y →
  store_stream s' σ = Some (tt, written σ ls (BStream s')) ∧
  layout (written σ ls (BStream s')) ls lf ly s' f y.
Proof.
  intros L. destruct (layout_distinct _ _ _ _ _ _ _ L) as (? & ? & ?).
  destruct L as (Ht & Hs & Hf & Hy). split.
  - unfold store_stream, bind, get_this, assign, written.
    rewrite Ht; simpl. by rewrite Hs.
  - unfold layout, written; simpl. repeat split; try done; by simplify_map_eq.
Qed.

Lemma store_frame_layout σ ls lf ly s f y f' :
  layout σ ls lf ly s f y →
  store_frame f' σ = Some (tt, written σ lf (BFrame f')) ∧
  layout (written σ lf (BFrame f')) ls lf ly s f' y.
Proof.
  intros L. destruct (layout_distinct _ _ _ _ _ _ _ L) as (? & ? & ?).
  destruct L as (Ht & Hs & Hf & Hy). split.
  - unfold store_frame, bind, get_this, assign, written.
    rewrite Ht; simpl. by rewrite Hf.
  - unfold layout, written; simpl. repeat split; try done; by simplify_map_eq.
Qed.

Lemma store_synth_layout σ ls lf ly s f y y' :
  layout σ ls lf ly s f y →
  store_synth y' σ = Some (tt, written σ ly (BSynth y')) ∧
  layout (written σ ly (BSynth y')) ls lf ly s f y'.
Proof.
  intros L. destruct (layout_distinct _ _ _ _ _ _ _ L) as (? & ? & ?).
  destruct L as (Ht & Hs & Hf & Hy). split.
  - unfold store_synth, bind, get_this, assign, written.
    rewrite Ht; simpl. by rewrite Hy.
  - unfold layout, written; simpl. repeat split; try done; by simplify_map_eq.
Qed.

(** The getters read one field and leave the state alone. *)
Lemma CurrentFrame_layout σ ls lf ly s f y :
  layout σ ls lf ly s f y → CurrentFrame σ = Some (this_frame s, σ).
Proof.
  intros L. unfold CurrentFrame, bind.
  by rewrite (load_stream_layout _ _ _ _ _ _ _ L).
Qed.

Lemma NextFrame_layout σ ls lf ly s f y :
  layout σ ls lf ly s f y → NextFrame σ = Some (next_frame s, σ).
Proof.
  intros L. unfold NextFrame, bind.
  by rewrite (load_stream_layout _ _ _ _ _ _ _ L).
Qed.

Lemma SampleRate_layout σ ls lf ly s f y :
  layout σ ls lf ly s f y →
  SampleRate σ = Some (to_int (samplerate (pcm y)), σ).
Proof.
  intros L. unfold SampleRate, bind.
  by rewrite (load_synth_layout _ _ _ _ _ _ _ L).
Qed.

Lemma Channels_layout σ ls lf ly s f y :
  layout σ ls lf ly s f y →
  Channels σ = Some (to_int (channels (pcm y)), σ).
Proof.
  intros L. unfold Channels, bind.
  by rewrite (load_synth_layout _ _ _ _ _ _ _ L).
Qed.

Lemma Output_layout σ ls lf ly s f y :
  layout σ ls lf ly s f y → Output σ = Some (pcm_samples_of ly, σ).
Proof.
  intros (Ht & _ & _ & Hy). unfold Output, bind, get_this, deref, ret.
  rewrite Ht; simpl. by rewrite Hy.
Qed.

Lemma Error_get_layout σ ls lf ly s f y :
  layout σ ls lf ly s f y → Error_get σ = Some (error s, σ).
Proof.
  intros L. unfold Error_get, bind.
  by rewrite (load_stream_layout _ _ _ _ _ _ _ L).
Qed.

Lemma ErrorRecoverable_layout σ ls lf ly s f y :
  layout σ ls lf ly s f y →
  ErrorRecoverable σ = Some (bool_of_int (MAD_RECOVERABLE (error s)), σ).
Proof.
  intros L. unfold ErrorRecoverable, bind.
  by rewrite (load_stream_layout _ _ _ _ _ _ _ L).
Qed.

Lemma ErrorMessage_layout σ ls lf ly s f y :
  layout σ ls lf ly s f y →
  ErrorMessage σ = Some (mad_errorstr (error s), σ).
Proof.
  intros L. unfold ErrorMessage, bind.
  by rewrite (load_stream_layout _ _ _ _ _ _ _ L).
Qed.

(** What the two frame operations and the setter do to a live session. *)
Lemma DecodeFrame_layout σ ls lf ly s f y rc f' s' :
  layout σ ls lf ly s f y →
  mad_frame_decode f s = (rc, f', s') →
  let σ' := written (written σ lf (BFrame f')) ls (BStream s') in
  DecodeFrame σ = Some (negb (rc =? -1), σ') ∧ layout σ' ls lf ly s' f' y.
Proof.
  intros L E.
  destruct (store_frame_layout _ _ _ _ _ _ _ f' L) as [Sf L1].
  destruct (store_stream_layout _ _ _ _ _ _ _ s' L1) as [Ss L2].
  split; [|exact L2].
  unfold DecodeFrame, bind.
  rewrite (load_frame_layout _ _ _ _ _ _ _ L).
  rewrite (load_stream_layout _ _ _ _ _ _ _ L).
  rewrite E. unfold bind. by rewrite Sf, Ss.
Qed.

Lemma SynthFrame_layout σ ls lf ly s f y y' f' :
  layout σ ls lf ly s f y →
  mad_synth_frame y f = (y', f') →
  let σ' := written (written σ ly (BSynth y')) lf (BFrame f') in
  SynthFrame σ = Some (tt, σ') ∧ layout σ' ls lf ly s f' y'.
Proof.
  intros L E.
  destruct (store_synth_layout _ _ _ _ _ _ _ y' L) as [Sy L1].
  destruct (store_frame_layout _ _ _ _ _ _ _ f' L1) as [Sf L2].
  split; [|exact L2].
  unfold SynthFrame, bind.
  rewrite (load_synth_layout _ _ _ _ _ _ _ L).
  rewrite (load_frame_layout _ _ _ _ _ _ _ L).
  rewrite E. unfold bind. by rewrite Sy, Sf.
Qed.

Lemma Error_set_layout σ ls lf ly s f y value :
  layout σ ls lf ly s f y →
  let σ' := written σ ls (BStream (with_error s value)) in
  Error_set value σ = Some (tt, σ') ∧
  layout σ' ls lf ly (with_error s value) f y.
Proof.
  intros L.
  destruct (store_stream_layout _ _ _ _ _ _ _ (with_error s value) L) as [Ss L1].
  split; [|exact L1].
  unfold Error_set, bind.
  by rewrite (load_stream_layout _ _ _ _ _ _ _ L).
Qed.

(** ** The claims about the frame operations *)

(** C1. On a live session [DecodeFrame] returns a boolean that is true
    exactly when the engine's [mad_frame_decode] returned something other
    than -1.  The wrapper does not touch the error code itself: when it
    returns false the engine has returned -1, and the session's current
    error code is the one the engine left in the stream. *)
Theorem DecodeFrame_reports_engine_result σ s f y rc f' s' :
  session σ s f y →
  mad_frame_decode f s = (rc, f', s') →
  ∃ (b : bool) σ',
    DecodeFrame σ = Some (b, σ') ∧
    (b = true ↔ rc ≠ -1) ∧
    session σ' s' f' y ∧
    (b = false → rc = -1 ∧ observe Error_get σ' = Some (error s')).
Proof.
  intros S E. apply session_layout in S as (ls & lf & ly & L).
  destruct (DecodeFrame_layout _ _ _ _ _ _ _ _ _ _ L E) as [R L'].
  eexists _, _. split; [exact R|]. split; [|split].
  - destruct (Z.eqb_spec rc (-1)); simpl; split; congruence.
  - apply session_layout. eauto.
  - intros Hb. split.
    + destruct (Z.eqb_spec rc (-1)); [done | discriminate].
    + unfold observe. by rewrite (Error_get_layout _ _ _ _ _ _ _ L').
Qed.

(** C2, as amended.  On a live session [SynthFrame] returns nothing
    ([unit]) and what it changes is on the synthesis side: afterwards
    [SampleRate] and [Channels] show the pcm fields the engine's
    [mad_synth_frame] left.  The [Output] pointer is not updated: it is
    the address of the sample array inside the session's synthesiser
    block, the same before and after, and it is the array behind it that
    now holds the engine's samples.  [CurrentFrame], [NextFrame] and the
    current error code (with the two observables derived from it) read as
    before; the stream block and the session's pointers are the same. *)
Theorem SynthFrame_touches_synthesis_side_only σ s f y y' f' :
  session σ s f y →
  mad_synth_frame y f = (y', f') →
  ∃ σ',
    SynthFrame σ = Some (tt, σ') ∧
    session σ' s f' y' ∧
    observe SampleRate σ' = Some (to_int (samplerate (pcm y'))) ∧
    observe Channels σ' = Some (to_int (channels (pcm y'))) ∧
    observe Output σ' = observe Output σ ∧
    (∃ l, _Synth (this σ) = Some l ∧
          observe Output σ' = Some (pcm_samples_of l) ∧
          sample_block (pcm_samples_of l) σ' = Some (samples (pcm y'))) ∧
    observe CurrentFrame σ' = observe CurrentFrame σ ∧
    observe NextFrame σ' = observe NextFrame σ ∧
    observe Error_get σ' = observe Error_get σ ∧
    observe ErrorRecoverable σ' = observe ErrorRecoverable σ ∧
    observe ErrorMessage σ' = observe ErrorMessage σ ∧
    this σ' = this σ.
Proof.
  intros S E. apply session_layout in S as (ls & lf & ly & L).
  destruct (SynthFrame_layout _ _ _ _ _ _ _ _ _ L E) as [R L'].
  eexists. split; [exact R|]. split; [apply session_layout; eauto|].
  assert (sample_block (pcm_samples_of ly)
            (written (written σ ly (BSynth y')) lf (BFrame f'))
          = Some (samples (pcm y'))) as Hb.
  { destruct L' as (_ & _ & _ & Hy). unfold sample_block. by rewrite Hy. }
  assert (_Synth (this σ) = Some ly) as Hp.
  { destruct L as (-> & _). reflexivity. }
  unfold observe.
  rewrite (SampleRate_layout _ _ _ _ _ _ _ L'),
    (Channels_layout _ _ _ _ _ _ _ L'), (Output_layout _ _ _ _ _ _ _ L'),
    (Output_layout _ _ _ _ _ _ _ L),
    (CurrentFrame_layout _ _ _ _ _ _ _ L'), (CurrentFrame_layout _ _ _ _ _ _ _ L),
    (NextFrame_layout _ _ _ _ _ _ _ L'), (NextFrame_layout _ _ _ _ _ _ _ L),
    (Error_get_layout _ _ _ _ _ _ _ L'), (Error_get_layout _ _ _ _ _ _ _ L),
    (ErrorRecoverable_layout _ _ _ _ _ _ _ L'),
    (ErrorRecoverable_layout _ _ _ _ _ _ _ L),
    (ErrorMessage_layout _ _ _ _ _ _ _ L'), (ErrorMessage_layout _ _ _ _ _ _ _ L).
  simpl. split_and!; try done. exists ly. done.
Qed.

(** Two [SynthFrame] calls in a row run the engine's synthesis twice: the
    second call starts from the synthesiser block the first one left. *)
Lemma SynthFrame_twice σ s f y y1 f1 y2 f2 :
  session σ s f y →
  mad_synth_frame y f = (y1, f1) →
  mad_synth_frame y1 f1 = (y2, f2) →
  ∃ σ1 σ2,
    SynthFrame σ = Some (tt, σ1) ∧ session σ1 s f1 y1 ∧
    SynthFrame σ1 = Some (tt, σ2) ∧ session σ2 s f2 y2.
Proof.
  intros S E1 E2. apply session_layout in S as (ls & lf & ly & L).
  destruct (SynthFrame_layout _ _ _ _ _ _ _ _ _ L E1) as [R1 L1].
  destruct (SynthFrame_layout _ _ _ _ _ _ _ _ _ L1 E2) as [R2 L2].
  eexists _, _. split_and!; [exact R1 | | exact R2 | ];
    apply session_layout; eauto.
Qed.

(** The literal [FrameSampleCount]. *)
Lemma FrameSampleCount_value : FrameSampleCount = 1152.
Proof. reflexivity. Qed.

(** ** The claims about the error observables *)

(** C4. On a live session whose current error code is the number of the
    public name [e], [ErrorRecoverable] returns true exactly when [e] is
    one of the 18 stream-content errors, and false when [e] is one of the
    fatal errors [BufferLength], [BufferData], [Memory]. *)
Theorem ErrorRecoverable_two_tiers σ s f y (e : Error.t) :
  session σ s f y →
  error s = Error.value e →
  ∃ b : bool,
    ErrorRecoverable σ = Some (b, σ) ∧
    (b = true ↔ e ∈ stream_content_errors) ∧
    (e ∈ fatal_errors → b = false).
Proof.
  intros S E. apply session_layout in S as (ls & lf & ly & L).
  eexists. split; [exact (ErrorRecoverable_layout _ _ _ _ _ _ _ L)|].
  rewrite E, recoverable_by_name. split.
  - apply bool_decide_eq_true.
  - intros Hf. apply bool_decide_eq_false. by apply fatal_not_stream_content.
Qed.

(** C10. On a live session whose current error code is [None],
    [ErrorRecoverable] returns false. *)
Theorem ErrorRecoverable_false_without_error σ s f y :
  session σ s f y →
  error s = Error.value Error.None →
  ErrorRecoverable σ = Some (false, σ).
Proof.
  intros S E. apply session_layout in S as (ls & lf & ly & L).
  rewrite (ErrorRecoverable_layout _ _ _ _ _ _ _ L), E. reflexivity.
Qed.

(** C6. On a live session, setting the [Error] property to any value and
    reading it back returns that value; for the number of a public name
    the value read is that name again, [None] included.  The setter
    writes the error field of the stream block and nothing else:
    [CurrentFrame], [NextFrame], [SampleRate], [Channels] and [Output]
    read as before, the frame and synthesiser blocks and the rest of the
    stream block are the same, and so are the session's pointers. *)
Theorem Error_set_then_get σ s f y (value : Z) :
  session σ s f y →
  ∃ σ',
    Error_set value σ = Some (tt, σ') ∧
    observe Error_get σ' = Some value ∧
    (∀ e : Error.t, value = Error.value e →
       Error.of_value <$> observe Error_get σ' = Some (Some e)) ∧
    observe CurrentFrame σ' = observe CurrentFrame σ ∧
    observe NextFrame σ' = observe NextFrame σ ∧
    observe SampleRate σ' = observe SampleRate σ ∧
    observe Channels σ' = observe Channels σ ∧
    observe Output σ' = observe Output σ ∧
    session σ' (with_error s value) f y ∧
    this σ' = this σ.
Proof.
  intros S. apply session_layout in S as (ls & lf & ly & L).
  destruct (Error_set_layout _ _ _ _ _ _ _ value L) as [R L'].
  eexists. split; [exact R|]. unfold observe.
  rewrite (Error_get_layout _ _ _ _ _ _ _ L'),
    (CurrentFrame_layout _ _ _ _ _ _ _ L'), (CurrentFrame_layout _ _ _ _ _ _ _ L),
    (NextFrame_layout _ _ _ _ _ _ _ L'), (NextFrame_layout _ _ _ _ _ _ _ L),
    (SampleRate_layout _ _ _ _ _ _ _ L'), (SampleRate_layout _ _ _ _ _ _ _ L),
    (Channels_layout _ _ _ _ _ _ _ L'), (Channels_layout _ _ _ _ _ _ _ L),
    (Output_layout _ _ _ _ _ _ _ L'), (Output_layout _ _ _ _ _ _ _ L).
  simpl. split_and!; try done.
  - intros e ->. by rewrite Error_of_value_value.
  - apply session_layout. eauto.
Qed.

(** C9. On a live session, right after the [Error] property is set to a
    value, the three error observables all answer for that value:
    [Error] returns it, [ErrorRecoverable] returns the page test of it
    (for the number of a public name: whether the name is a stream-content
    error) and [ErrorMessage] returns the engine's message for it. *)
Theorem error_observables_follow_stored_code σ s f y (value : Z) :
  session σ s f y →
  ∃ σ',
    Error_set value σ = Some (tt, σ') ∧
    observe Error_get σ' = Some value ∧
    observe ErrorRecoverable σ' = Some (bool_of_int (MAD_RECOVERABLE value)) ∧
    (∀ e : Error.t, value = Error.value e →
       observe ErrorRecoverable σ' =
       Some (bool_decide (e ∈ stream_content_errors))) ∧
    observe ErrorMessage σ' = Some (mad_errorstr value).
Proof.
  intros S. apply session_layout in S as (ls & lf & ly & L).
  destruct (Error_set_layout _ _ _ _ _ _ _ value L) as [R L'].
  eexists. split; [exact R|]. unfold observe.
  rewrite (Error_get_layout _ _ _ _ _ _ _ L'),
    (ErrorRecoverable_layout _ _ _ _ _ _ _ L'),
    (ErrorMessage_layout _ _ _ _ _ _ _ L').
  simpl. split_and!; try done.
  intros e ->. by rewrite recoverable_by_name.
Qed.

(** ** Acquisition and release *)

(** [Terminate] runs the three [finish] calls on a live session. *)
Lemma Terminate_layout σ ls lf ly s f y :
  layout σ ls lf ly s f y →
  let σ' := written (written (written σ ls (BStream (mad_stream_finish s)))
                       lf (BFrame (mad_frame_finish f)))
              ly (BSynth (mad_synth_finish y)) in
  Terminate σ = Some (tt, σ') ∧
  layout σ' ls lf ly (mad_stream_finish s) (mad_frame_finish f)
    (mad_synth_finish y).
Proof.
  intros L.
  destruct (store_stream_layout _ _ _ _ _ _ _ (mad_stream_finish s) L) as [R1 L1].
  destruct (store_frame_layout _ _ _ _ _ _ _ (mad_frame_finish f) L1) as [R2 L2].
  destruct (store_synth_layout _ _ _ _ _ _ _ (mad_synth_finish y) L2) as [R3 L3].
  split; [|exact L3].
  unfold Terminate, bind.
  rewrite (load_stream_layout _ _ _ _ _ _ _ L), R1.
  rewrite (load_frame_layout _ _ _ _ _ _ _ L1), R2.
  by rewrite (load_synth_layout _ _ _ _ _ _ _ L2), R3.
Qed.

(** Writing through a live pointer allocates and frees nothing. *)
Lemma written_dom σ l b :
  is_Some (heap σ !! l) → dom (heap (written σ l b)) = dom (heap σ).
Proof.
  intros Hl. unfold written; simpl. rewrite dom_insert_L.
  apply elem_of_dom in Hl. set_solver.
Qed.

(** [Initialize] always runs: it allocates three blocks at addresses
    that were not in use and leaves a live session on them. *)
Lemma Initialize_layout σ :
  ∃ σ1 ls lf ly,
    Initialize σ = Some (tt, σ1) ∧
    layout σ1 ls lf ly (mad_stream_init zero_stream)
      (mad_frame_init zero_frame) (mad_synth_init zero_synth) ∧
    (ls ∉ dom (heap σ)) ∧ (lf ∉ dom (heap σ)) ∧ (ly ∉ dom (heap σ)) ∧
    dom (heap σ1) = {[ls; lf; ly]} ∪ dom (heap σ).
Proof.
  destruct σ as [h d].
  set (ls := fresh (dom h)).
  set (h1 := <[ls := BStream zero_stream]> h).
  set (lf := fresh (dom h1)).
  set (h2 := <[lf := BFrame zero_frame]> h1).
  set (ly := fresh (dom h2)).
  set (h3 := <[ly := BSynth zero_synth]> h2).
  set (σ0 := {| heap := h3;
                this := {| _Stream := Some ls; _Frame := Some lf;
                           _Synth := Some ly |} |}).
  assert (ls ∉ dom h) as Hs by apply is_fresh.
  assert (lf ∉ dom h1) as Hf by apply is_fresh.
  assert (ly ∉ dom h2) as Hy by apply is_fresh.
  unfold h2 in Hy. unfold h1 in Hf, Hy. rewrite !dom_insert_L in Hf, Hy.
  assert (layout σ0 ls lf ly zero_stream zero_frame zero_synth) as L0.
  { unfold layout, σ0, h3, h2, h1; simpl.
    split_and!; [done | | | ].
    - rewrite !lookup_insert_ne by set_solver. apply lookup_insert_eq.
    - rewrite lookup_insert_ne by set_solver. apply lookup_insert_eq.
    - apply lookup_insert_eq. }
  destruct (store_stream_layout _ _ _ _ _ _ _ (mad_stream_init zero_stream) L0)
    as [R1 L1].
  destruct (store_frame_layout _ _ _ _ _ _ _ (mad_frame_init zero_frame) L1)
    as [R2 L2].
  destruct (store_synth_layout _ _ _ _ _ _ _ (mad_synth_init zero_synth) L2)
    as [R3 L3].
  eexists _, ls, lf, ly. split_and!; [ | exact L3 | set_solver.. | ].
  - change (Initialize {| heap := h; this := d |}) with
      ((s <~ load_stream ;; store_stream (mad_stream_init s) ;;;
        f <~ load_frame ;; store_frame (mad_frame_init f) ;;;
        y <~ load_synth ;; store_synth (mad_synth_init y)) σ0).
    unfold bind.
    rewrite (load_stream_layout _ _ _ _ _ _ _ L0), R1.
    rewrite (load_frame_layout _ _ _ _ _ _ _ L1), R2.
    by rewrite (load_synth_layout _ _ _ _ _ _ _ L2), R3.
  - destruct L0 as (_ & ? & ? & ?), L1 as (_ & ? & ? & ?),
      L2 as (_ & ? & ? & ?).
    rewrite !written_dom by eauto.
    unfold σ0, h3, h2, h1; simpl. rewrite !dom_insert_L. set_solver.
Qed.

(** C7. From any state, [Initialize] acquires the three blocks (stream,
    frame, synth) at addresses that were free, and the [Terminate] that
    follows runs the three [finish] calls but deletes none of the blocks:
    all three are still allocated, and still pointed to by the session,
    when it returns; the native heap has exactly the addresses it had
    before [Terminate]. *)
Theorem Terminate_keeps_the_three_blocks σ :
  ∃ σ1 σ2 ls lf ly,
    Initialize σ = Some (tt, σ1) ∧
    (ls ∉ dom (heap σ)) ∧ (lf ∉ dom (heap σ)) ∧ (ly ∉ dom (heap σ)) ∧
    dom (heap σ1) = {[ls; lf; ly]} ∪ dom (heap σ) ∧
    Terminate σ1 = Some (tt, σ2) ∧
    this σ2 = {| _Stream := Some ls; _Frame := Some lf; _Synth := Some ly |} ∧
    is_Some (heap σ2 !! ls) ∧ is_Some (heap σ2 !! lf) ∧
    is_Some (heap σ2 !! ly) ∧
    dom (heap σ2) = dom (heap σ1).
Proof.
  destruct (Initialize_layout σ) as (σ1 & ls & lf & ly & R & L & ? & ? & ? & D).
  destruct (Terminate_layout _ _ _ _ _ _ _ L) as [R' L'].
  eexists σ1, _, ls, lf, ly.
  split_and!; [exact R | done | done | done | exact D | exact R' | ..].
  - by destruct L' as (? & _).
  - destruct L' as (_ & -> & _). eauto.
  - destruct L' as (_ & _ & -> & _). eauto.
  - destruct L' as (_ & _ & _ & ->). eauto.
  - destruct (store_stream_layout _ _ _ _ _ _ _ (mad_stream_finish
      (mad_stream_init zero_stream)) L) as [_ L1].
    destruct (store_frame_layout _ _ _ _ _ _ _ (mad_frame_finish
      (mad_frame_init zero_frame)) L1) as [_ L2].
    destruct L as (_ & ? & ? & ?), L1 as (_ & ? & ? & ?),
      L2 as (_ & ? & ? & ?).
    rewrite !written_dom by eauto. done.
Qed.

End Session.

(** ** The theorems at work on the small engine *)

Lemma opened_session :
  session Demo.opened Demo.opened_stream 0 Demo.opened_synth.
Proof. vm_compute. split_and!; reflexivity. Qed.

Lemma fed_session : session Demo.fed Demo.fed_stream 0 Demo.opened_synth.
Proof. vm_compute. split_and!; reflexivity. Qed.

Lemma short_session : session Demo.short Demo.short_stream 0 Demo.opened_synth.
Proof. vm_compute. split_and!; reflexivity. Qed.

Lemma DecodeFrame_reports_engine_result_witness :
  session Demo.opened Demo.opened_stream 0 Demo.opened_synth ∧
  mad_frame_decode 0 Demo.opened_stream
    = (-1, 0, with_error Demo.opened_stream 0x0001) ∧
  ∃ (b : bool) σ',
    DecodeFrame Demo.opened = Some (b, σ') ∧
    (b = true ↔ -1 ≠ -1) ∧
    session σ' (with_error Demo.opened_stream 0x0001) 0 Demo.opened_synth ∧
    (b = false →
     -1 = -1 ∧
     observe Error_get σ' = Some (error (with_error Demo.opened_stream 0x0001))).
Proof.
  split; [exact opened_session|]. split; [reflexivity|].
  exact (DecodeFrame_reports_engine_result Demo.opened Demo.opened_stream 0
           Demo.opened_synth (-1) 0 (with_error Demo.opened_stream 0x0001)
           opened_session eq_refl).
Defined.

Lemma SynthFrame_touches_synthesis_side_only_witness :
  session Demo.fed Demo.fed_stream 0 Demo.opened_synth ∧
  ∃ σ',
    SynthFrame Demo.fed = Some (tt, σ') ∧
    observe SampleRate σ' = Some 44100 ∧
    observe Channels σ' = Some 2 ∧
    observe Output σ' = observe Output Demo.fed ∧
    observe CurrentFrame σ' = observe CurrentFrame Demo.fed ∧
    observe NextFrame σ' = observe NextFrame Demo.fed ∧
    observe Error_get σ' = observe Error_get Demo.fed.
Proof.
  split; [exact fed_session|].
  destruct (@SynthFrame_touches_synthesis_side_only _ _ _ Demo.engine
              Demo.fed Demo.fed_stream 0
              Demo.opened_synth (fst (Demo.synthesise Demo.opened_synth 0)) 0
              fed_session eq_refl)
    as (σ' & R & _ & Hr & Hc & Ho & _ & Hcf & Hnf & He & _).
  exists σ'. split_and!; assumption.
Defined.

(** C2 as first stated has [SynthFrame] update the [Output] pointer.  On
    the session with eight bytes of input, [SynthFrame] runs and produces
    new data ([SampleRate] goes from 0 to 44100 and the sample array
    changes), yet [Output] is the same pointer before and after: the
    address of the array inside the synthesiser block at address 3. *)
Lemma SynthFrame_does_not_update_Output :
  ∃ σ',
    SynthFrame Demo.fed = Some (tt, σ') ∧
    observe SampleRate Demo.fed = Some 0 ∧
    observe SampleRate σ' = Some 44100 ∧
    sample_block (pcm_samples_of 3%positive) Demo.fed = Some [[0]; [0]] ∧
    sample_block (pcm_samples_of 3%positive) σ' = Some [[0; 0]; [0; 0]] ∧
    observe Output Demo.fed = Some (pcm_samples_of 3%positive) ∧
    observe Output σ' = Some (pcm_samples_of 3%positive) ∧
    ¬ (observe Output σ' ≠ observe Output Demo.fed).
Proof.
  eexists. split; [vm_compute; reflexivity|].
  split_and!; try (vm_compute; reflexivity).
  intros H. apply H. vm_compute. reflexivity.
Qed.

Lemma ErrorRecoverable_two_tiers_witness :
  session Demo.short Demo.short_stream 0 Demo.opened_synth ∧
  error Demo.short_stream = Error.value Error.LostSync ∧
  ∃ b : bool,
    ErrorRecoverable Demo.short = Some (b, Demo.short) ∧
    (b = true ↔ Error.LostSync ∈ stream_content_errors) ∧
    (Error.LostSync ∈ fatal_errors → b = false).
Proof.
  split; [exact short_session|]. split; [reflexivity|].
  exact (ErrorRecoverable_two_tiers Demo.short Demo.short_stream 0
           Demo.opened_synth Error.LostSync short_session eq_refl).
Defined.

Lemma ErrorRecoverable_false_without_error_witness :
  session Demo.opened Demo.opened_stream 0 Demo.opened_synth ∧
  error Demo.opened_stream = Error.value Error.None ∧
  ErrorRecoverable Demo.opened = Some (false, Demo.opened).
Proof.
  split; [exact opened_session|]. split; [reflexivity|].
  exact (ErrorRecoverable_false_without_error Demo.opened Demo.opened_stream 0
           Demo.opened_synth opened_session eq_refl).
Defined.

Lemma Error_set_then_get_witness :
  session Demo.short Demo.short_stream 0 Demo.opened_synth ∧
  ∃ σ',
    Error_set (Error.value Error.None) Demo.short = Some (tt, σ') ∧
    observe Error_get σ' = Some 0 ∧
    Error.of_value <$> observe Error_get σ' = Some (Some Error.None) ∧
    observe NextFrame σ' = observe NextFrame Demo.short.
Proof.
  split; [exact short_session|].
  destruct (Error_set_then_get Demo.short Demo.short_stream 0 Demo.opened_synth
              (Error.value Error.None) short_session)
    as (σ' & R & Hg & Hn & _ & Hnf & _).
  exists σ'. split_and!; [exact R | exact Hg | exact (Hn _ eq_refl) | exact Hnf].
Defined.

Lemma error_observables_follow_stored_code_witness :
  session Demo.opened Demo.opened_stream 0 Demo.opened_synth ∧
  ∃ σ',
    Error_set (Error.value Error.LostSync) Demo.opened = Some (tt, σ') ∧
    observe Error_get σ' = Some 0x0101 ∧
    observe ErrorRecoverable σ' = Some true ∧
    observe ErrorMessage σ' = Some "lost synchronization".
Proof.
  split; [exact opened_session|].
  destruct (error_observables_follow_stored_code Demo.opened Demo.opened_stream
              0 Demo.opened_synth (Error.value Error.LostSync) opened_session)
    as (σ' & R & Hg & Hr & _ & Hm).
  exists σ'. split_and!; [exact R | exact Hg | exact Hr | exact Hm].
Defined.

(** ** More of the class: what the members do beyond the claims *)

Section Coverage.
Context {stream_priv mad_frame synth_priv : Type}.
Context `{!Engine stream_priv mad_frame synth_priv}.

Local Abbreviation state := (@state stream_priv mad_frame synth_priv).
Implicit Types (σ : state) (ls lf ly : loc).
Implicit Types (s : mad_stream stream_priv) (f : mad_frame).
Implicit Types (y : mad_synth synth_priv).

Lemma written_other σ l b l' :
  l' ≠ l → heap (written σ l b) !! l' = heap σ !! l'.
Proof. intros Hne. unfold written; simpl. by rewrite lookup_insert_ne. Qed.

Lemma written_twice σ l b1 b2 :
  written (written σ l b1) l b2 = written σ l b2.
Proof. unfold written; simpl. by rewrite insert_insert_eq. Qed.

Lemma written_swap σ l1 b1 l2 b2 :
  l1 ≠ l2 →
  written (written σ l1 b1) l2 b2 = written (written σ l2 b2) l1 b1.
Proof.
  intros Hne. unfold written; simpl. f_equal. by apply insert_insert_ne.
Qed.

Lemma written_same σ l b : heap σ !! l = Some b → written σ l b = σ.
Proof.
  intros Hl. destruct σ as [h d]. unfold written; simpl in *.
  by rewrite insert_id.
Qed.

Lemma layout_in_dom σ ls lf ly s f y :
  layout σ ls lf ly s f y →
  ls ∈ dom (heap σ) ∧ lf ∈ dom (heap σ) ∧ ly ∈ dom (heap σ).
Proof.
  intros (_ & Hs & Hf & Hy). split_and!; apply elem_of_dom; eauto.
Qed.

(** The loads read and do nothing else, on any state. *)
Lemma load_stream_pure σ s σ' : load_stream σ = Some (s, σ') → σ' = σ.
Proof.
  unfold load_stream, bind, get_this, deref, ret, undefined.
  destruct (_Stream (this σ)); [|discriminate].
  destruct (heap σ !! l) as [[]|]; congruence.
Qed.

Lemma load_frame_pure σ f σ' : load_frame σ = Some (f, σ') → σ' = σ.
Proof.
  unfold load_frame, bind, get_this, deref, ret, undefined.
  destruct (_Frame (this σ)); [|discriminate].
  destruct (heap σ !! l) as [[]|]; congruence.
Qed.

Lemma load_synth_pure σ y σ' : load_synth σ = Some (y, σ') → σ' = σ.
Proof.
  unfold load_synth, bind, get_this, deref, ret, undefined.
  destruct (_Synth (this σ)); [|discriminate].
  destruct (heap σ !! l) as [[]|]; congruence.
Qed.

Lemma SetInput_layout σ ls lf ly s f y Buffer Length :
  layout σ ls lf ly s f y →
  let s' := mad_stream_buffer s Buffer (to_unsigned_long Length) in
  let σ' := written σ ls (BStream s') in
  SetInput Buffer Length σ = Some (tt, σ') ∧ layout σ' ls lf ly s' f y.
Proof.
  intros L.
  destruct (store_stream_layout _ _ _ _ _ _ _
              (mad_stream_buffer s Buffer (to_unsigned_long Length)) L)
    as [Ss L1].
  split; [|exact L1].
  unfold SetInput, bind.
  by rewrite (load_stream_layout _ _ _ _ _ _ _ L).
Qed.

(** [Initialize] in full: besides the three new blocks, every block that
    was allocated before is still there with its contents. *)
Lemma Initialize_frame σ :
  ∃ σ1 ls lf ly,
    Initialize σ = Some (tt, σ1) ∧
    layout σ1 ls lf ly (mad_stream_init zero_stream)
      (mad_frame_init zero_frame) (mad_synth_init zero_synth) ∧
    (ls ∉ dom (heap σ)) ∧ (lf ∉ dom (heap σ)) ∧ (ly ∉ dom (heap σ)) ∧
    dom (heap σ1) = {[ls; lf; ly]} ∪ dom (heap σ) ∧
    (∀ l, l ∈ dom (heap σ) → heap σ1 !! l = heap σ !! l).
Proof.
  destruct σ as [h d].
  pose (ls := fresh (dom h)).
  pose (h1 := <[ls := BStream zero_stream]> h).
  pose (lf := fresh (dom h1)).
  pose (h2 := <[lf := BFrame zero_frame]> h1).
  pose (ly := fresh (dom h2)).
  pose (h3 := <[ly := BSynth zero_synth]> h2).
  pose (σ0 := {| heap := h3;
                 this := {| _Stream := Some ls; _Frame := Some lf;
                            _Synth := Some ly |} |} : state).
  pose proof (is_fresh (dom h)) as Hs.
  pose proof (is_fresh (dom h1)) as Hf.
  pose proof (is_fresh (dom h2)) as Hy.
  fold ls in Hs. fold lf in Hf. fold ly in Hy.
  unfold h2 in Hy. unfold h1 in Hf, Hy. rewrite !dom_insert_L in Hf, Hy.
  assert (ls ≠ lf ∧ ls ≠ ly ∧ lf ≠ ly) as (N1 & N2 & N3)
    by (split_and!; intros E; rewrite <- ?E in *; set_solver).
  assert (layout σ0 ls lf ly zero_stream zero_frame zero_synth) as L0.
  { unfold layout, σ0, h3, h2, h1; simpl. split_and!; [done | | | ].
    - rewrite !lookup_insert_ne by done. apply lookup_insert_eq.
    - rewrite lookup_insert_ne by done. apply lookup_insert_eq.
    - apply lookup_insert_eq. }
  destruct (store_stream_layout _ _ _ _ _ _ _ (mad_stream_init zero_stream) L0)
    as [R1 L1].
  destruct (store_frame_layout _ _ _ _ _ _ _ (mad_frame_init zero_frame) L1)
    as [R2 L2].
  destruct (store_synth_layout _ _ _ _ _ _ _ (mad_synth_init zero_synth) L2)
    as [R3 L3].
  eexists _, ls, lf, ly.
  split_and!; [ | exact L3 | set_solver | set_solver | set_solver | | ].
  - change (Initialize {| heap := h; this := d |}) with
      ((s <~ load_stream ;; store_stream (mad_stream_init s) ;;;
        f <~ load_frame ;; store_frame (mad_frame_init f) ;;;
        y <~ load_synth ;; store_synth (mad_synth_init y)) σ0).
    unfold bind.
    rewrite (load_stream_layout _ _ _ _ _ _ _ L0), R1.
    rewrite (load_frame_layout _ _ _ _ _ _ _ L1), R2.
    by rewrite (load_synth_layout _ _ _ _ _ _ _ L2), R3.
  - unfold written, σ0, h3, h2, h1; simpl. rewrite !dom_insert_L. set_solver.
  - intros l Hl. simpl in Hl.
    assert (l ≠ ls ∧ l ≠ lf ∧ l ≠ ly) as (? & ? & ?)
      by (split_and!; intros ->; set_solver).
    rewrite !written_other by done.
    unfold σ0, h3, h2, h1; simpl. by rewrite !lookup_insert_ne.
Qed.

(** One call of a member other than [Initialize] on a live session: the
    session stays on its three addresses, no address is gained or lost and
    no block other than the session's own is written. *)
Lemma exec_layout_same σ ls lf ly s f y (c : call) :
  is_Initialize c = false →
  layout σ ls lf ly s f y →
  ∃ σ' s' f' y',
    exec c σ = Some (tt, σ') ∧
    layout σ' ls lf ly s' f' y' ∧
    this σ' = this σ ∧
    dom (heap σ') = dom (heap σ) ∧
    (∀ l, l ≠ ls → l ≠ lf → l ≠ ly → heap σ' !! l = heap σ !! l).
Proof.
  intros Hc L.
  destruct (layout_in_dom _ _ _ _ _ _ _ L) as (Ds & Df & Dy).
  assert (∀ σ' s' f' y', exec c σ = Some (tt, σ') → σ' = σ →
            layout σ' ls lf ly s' f' y' →
            ∃ σ' s' f' y',
              exec c σ = Some (tt, σ') ∧ layout σ' ls lf ly s' f' y' ∧
              this σ' = this σ ∧ dom (heap σ') = dom (heap σ) ∧
              (∀ l, l ≠ ls → l ≠ lf → l ≠ ly → heap σ' !! l = heap σ !! l))
    as Same.
  { intros σ' s' f' y' R -> L'. eexists _, _, _, _.
    split_and!; [exact R | exact L' | done..]. }
  destruct c; try discriminate; simpl.
  - destruct (Terminate_layout _ _ _ _ _ _ _ L) as [R L'].
    eexists _, _, _, _. split_and!; [exact R | exact L' | done | | ].
    + unfold written; simpl. rewrite !dom_insert_L. set_solver.
    + intros l ? ? ?. by rewrite !written_other.
  - destruct (SetInput_layout _ _ _ _ _ _ _ Buffer Length L) as [R L'].
    eexists _, _, _, _. split_and!; [exact R | exact L' | done | | ].
    + unfold written; simpl. rewrite !dom_insert_L. set_solver.
    + intros l ? ? ?. by rewrite !written_other.
  - eapply Same; [|reflexivity|exact L]. simpl; unfold bind.
    by rewrite (CurrentFrame_layout _ _ _ _ _ _ _ L).
  - eapply Same; [|reflexivity|exact L]. simpl; unfold bind.
    by rewrite (NextFrame_layout _ _ _ _ _ _ _ L).
  - eapply Same; [|reflexivity|exact L]. simpl; unfold bind.
    by rewrite (SampleRate_layout _ _ _ _ _ _ _ L).
  - eapply Same; [|reflexivity|exact L]. simpl; unfold bind.
    by rewrite (Channels_layout _ _ _ _ _ _ _ L).
  - eapply Same; [|reflexivity|exact L]. simpl; unfold bind.
    by rewrite (Output_layout _ _ _ _ _ _ _ L).
  - eapply Same; [|reflexivity|exact L]. simpl; unfold bind.
    by rewrite (Error_get_layout _ _ _ _ _ _ _ L).
  - destruct (Error_set_layout _ _ _ _ _ _ _ value L) as [R L'].
    eexists _, _, _, _. split_and!; [exact R | exact L' | done | | ].
    + unfold written; simpl. rewrite !dom_insert_L. set_solver.
    + intros l ? ? ?. by rewrite !written_other.
  - eapply Same; [|reflexivity|exact L]. simpl; unfold bind.
    by rewrite (ErrorRecoverable_layout _ _ _ _ _ _ _ L).
  - eapply Same; [|reflexivity|exact L]. simpl; unfold bind.
    by rewrite (ErrorMessage_layout _ _ _ _ _ _ _ L).
  - destruct (mad_frame_decode f s) as [[rc f'] s'] eqn:E.
    destruct (DecodeFrame_layout _ _ _ _ _ _ _ _ _ _ L E) as [R L'].
    eexists _, _, _, _. split_and!; [ | exact L' | done | | ].
    + unfold bind. by rewrite R.
    + unfold written; simpl. rewrite !dom_insert_L. set_solver.
    + intros l ? ? ?. by rewrite !written_other.
  - destruct (mad_synth_frame y f) as [y' f'] eqn:E.
    destruct (SynthFrame_layout _ _ _ _ _ _ _ _ _ L E) as [R L'].
    eexists _, _, _, _. split_and!; [exact R | exact L' | done | | ].
    + unfold written; simpl. rewrite !dom_insert_L. set_solver.
    + intros l ? ? ?. by rewrite !written_other.
Qed.

(** One call of any member on a live session. *)
Lemma exec_layout σ ls lf ly s f y (c : call) :
  layout σ ls lf ly s f y →
  ∃ σ' ls' lf' ly' s' f' y',
    exec c σ = Some (tt, σ') ∧
    layout σ' ls' lf' ly' s' f' y' ∧
    (∀ l, l ∈ dom (heap σ) → l ≠ ls → l ≠ lf → l ≠ ly →
       heap σ' !! l = heap σ !! l ∧ l ≠ ls' ∧ l ≠ lf' ∧ l ≠ ly') ∧
    dom (heap σ) ⊆ dom (heap σ') ∧
    size (dom (heap σ')) =
      (size (dom (heap σ)) + (if is_Initialize c then 3 else 0))%nat.
Proof.
  intros L. destruct (is_Initialize c) eqn:Hc.
  - destruct c; try discriminate. simpl.
    destruct (Initialize_frame σ)
      as (σ1 & ls' & lf' & ly' & R & L' & Hs & Hf & Hy & D & Fr).
    destruct (layout_distinct _ _ _ _ _ _ _ L') as (? & ? & ?).
    eexists σ1, ls', lf', ly', _, _, _.
    split_and!; [exact R | exact L' | | set_solver | ].
    + intros l Hl _ _ _. split_and!; [by apply Fr | ..]; intros ->; done.
    + rewrite D. rewrite size_union by set_solver.
      rewrite !size_union by set_solver. rewrite !size_singleton. lia.
  - destruct (exec_layout_same _ _ _ _ _ _ _ c Hc L)
      as (σ' & s' & f' & y' & R & L' & _ & D & Fr).
    eexists σ', ls, lf, ly, s', f', y'.
    split_and!; [exact R | exact L' | | by rewrite D | rewrite D; lia].
    intros l _ ? ? ?. split_and!; [by apply Fr | done..].
Qed.

(** Any sequence of calls on a live session. *)
Lemma exec_all_layout (cs : list call) : ∀ σ ls lf ly s f y,
  layout σ ls lf ly s f y →
  ∃ σ' ls' lf' ly' s' f' y',
    exec_all cs σ = Some (tt, σ') ∧
    layout σ' ls' lf' ly' s' f' y' ∧
    (∀ l, l ∈ dom (heap σ) → l ≠ ls → l ≠ lf → l ≠ ly →
       heap σ' !! l = heap σ !! l ∧ l ≠ ls' ∧ l ≠ lf' ∧ l ≠ ly') ∧
    dom (heap σ) ⊆ dom (heap σ') ∧
    size (dom (heap σ')) =
      (size (dom (heap σ)) + 3 * length (List.filter is_Initialize cs))%nat.
Proof.
  induction cs as [|c cs IH]; intros σ ls lf ly s f y L.
  - eexists σ, ls, lf, ly, s, f, y. simpl.
    split_and!; [done | exact L | | done | lia].
    intros l _ ? ? ?. done.
  - destruct (exec_layout _ _ _ _ _ _ _ c L)
      as (σ1 & ls1 & lf1 & ly1 & s1 & f1 & y1 & R1 & L1 & Fr1 & D1 & Z1).
    destruct (IH _ _ _ _ _ _ _ L1)
      as (σ2 & ls2 & lf2 & ly2 & s2 & f2 & y2 & R2 & L2 & Fr2 & D2 & Z2).
    eexists σ2, ls2, lf2, ly2, s2, f2, y2.
    split_and!; [ | exact L2 | | set_solver | ].
    + simpl. unfold bind. by rewrite R1.
    + intros l Hl ? ? ?.
      destruct (Fr1 l Hl) as (E1 & ? & ? & ?); [done..|].
      destruct (Fr2 l) as (E2 & ? & ? & ?); [set_solver | done..|].
      split_and!; [congruence | done..].
    + rewrite Z2, Z1. simpl. destruct (is_Initialize c); simpl; lia.
Qed.

(** ** Acquisition, again *)

(** [Initialize_within] with room for three blocks is [Initialize]. *)
Lemma Initialize_within_enough σ (n : nat) :
  Initialize_within (S (S (S n))) σ = (Initialize ;;; ret (returned tt)) σ.
Proof.
  unfold Initialize_within, Initialize, new_within, bind, new, get_this,
    set_this, ret; simpl.
  repeat
    match goal with
    | |- context [match ?m ?x with Some _ => _ | None => _ end] =>
        destruct (m x) as [[? ?]|]; try reflexivity
    end.
Qed.

(** X1. [Initialize] against a free store with room for [avail] more
    blocks.  With room for none, the first [new] throws and nothing has
    changed.  With room for one or two, the next [new] throws after the
    earlier ones were assigned: the object is left partly set, the blocks
    already allocated stay allocated just as [new] made them (no [init]
    call has run) and the other pointers are as before.  With room for
    three, [Initialize] returns, and leaves a live session on three new,
    pairwise different addresses holding the blocks as the engine's [init]
    functions leave them.  In every case the blocks allocated before keep
    their contents. *)
Theorem Initialize_against_free_store σ (avail : nat) :
  ∃ r σ1,
    Initialize_within avail σ = Some (r, σ1) ∧
    (∀ l, l ∈ dom (heap σ) → heap σ1 !! l = heap σ !! l) ∧
    match avail with
    | 0%nat => r = bad_alloc ∧ σ1 = σ
    | 1%nat =>
        r = bad_alloc ∧
        ∃ ls, (ls ∉ dom (heap σ)) ∧
          heap σ1 = <[ls := BStream zero_stream]> (heap σ) ∧
          this σ1 = {| _Stream := Some ls; _Frame := _Frame (this σ);
                       _Synth := _Synth (this σ) |}
    | 2%nat =>
        r = bad_alloc ∧
        ∃ ls lf, (ls ∉ dom (heap σ)) ∧ (lf ∉ dom (heap σ)) ∧ ls ≠ lf ∧
          heap σ1 = <[lf := BFrame zero_frame]>
                      (<[ls := BStream zero_stream]> (heap σ)) ∧
          this σ1 = {| _Stream := Some ls; _Frame := Some lf;
                       _Synth := _Synth (this σ) |}
    | _ =>
        r = returned tt ∧
        ∃ ls lf ly,
          (ls ∉ dom (heap σ)) ∧ (lf ∉ dom (heap σ)) ∧ (ly ∉ dom (heap σ)) ∧
          ls ≠ lf ∧ ls ≠ ly ∧ lf ≠ ly ∧
          this σ1 = {| _Stream := Some ls; _Frame := Some lf;
                       _Synth := Some ly |} ∧
          session σ1 (mad_stream_init zero_stream) (mad_frame_init zero_frame)
            (mad_synth_init zero_synth)
    end.
Proof.
  destruct avail as [|[|[|n]]].
  - exists bad_alloc, σ. split_and!; done.
  - destruct σ as [h d].
    eexists _, _. split; [reflexivity|]. simpl.
    assert (fresh (dom h) ∉ dom h) as Hs by apply is_fresh.
    set (ls := fresh (dom h)) in *. clearbody ls.
    split.
    + intros l Hl. rewrite lookup_insert_ne; [done|]. by intros <-.
    + split; [done|]. exists ls. done.
  - destruct σ as [h d].
    eexists _, _. split; [reflexivity|]. simpl.
    assert (fresh (dom h) ∉ dom h) as Hs by apply is_fresh.
    set (ls := fresh (dom h)) in *.
    assert (fresh (dom (<[ls := BStream zero_stream]> h))
              ∉ dom (<[ls := BStream zero_stream]> h)) as Hf by apply is_fresh.
    set (lf := fresh (dom (<[ls := BStream zero_stream]> h))) in *.
    clearbody lf. clearbody ls. rewrite dom_insert_L in Hf.
    assert (lf ∉ dom h) as Hf1
      by (intros Hl; apply Hf, elem_of_union_r, Hl).
    assert (ls ≠ lf) as Hne
      by (intros E; apply Hf, elem_of_union_l, elem_of_singleton; done).
    split.
    + intros l Hl. rewrite !lookup_insert_ne; [done|..]; by intros <-.
    + split; [done|]. exists ls, lf. done.
  - rewrite Initialize_within_enough. unfold bind.
    destruct (Initialize_frame σ)
      as (σ1 & ls & lf & ly & R & L & Hs & Hf & Hy & _ & Fr).
    destruct (layout_distinct _ _ _ _ _ _ _ L) as (? & ? & ?).
    rewrite R. eexists _, _. split; [reflexivity|]. split; [exact Fr|].
    split; [done|]. exists ls, lf, ly.
    split_and!; [done.. | by destruct L | apply session_layout; eauto].
Qed.

(** X2. [Initialize] on an object that already holds a live session does
    not release it: the three old blocks stay allocated with their
    contents, and the object now points to three other addresses, so the
    old blocks can no longer be reached through it. *)
Theorem Initialize_again_abandons_blocks σ ls lf ly s f y :
  layout σ ls lf ly s f y →
  ∃ σ1 ls' lf' ly',
    Initialize σ = Some (tt, σ1) ∧
    this σ1 = {| _Stream := Some ls'; _Frame := Some lf'; _Synth := Some ly' |} ∧
    ls' ≠ ls ∧ lf' ≠ lf ∧ ly' ≠ ly ∧
    heap σ1 !! ls = Some (BStream s) ∧
    heap σ1 !! lf = Some (BFrame f) ∧
    heap σ1 !! ly = Some (BSynth y).
Proof.
  intros L.
  destruct (layout_in_dom _ _ _ _ _ _ _ L) as (Ds & Df & Dy).
  destruct L as (_ & Hs & Hf & Hy).
  destruct (Initialize_frame σ)
    as (σ1 & ls' & lf' & ly' & R & L' & Ns & Nf & Ny & _ & Fr).
  exists σ1, ls', lf', ly'.
  split_and!; [exact R | by destruct L' | | | | | | ].
  - by intros ->.
  - by intros ->.
  - by intros ->.
  - by rewrite Fr.
  - by rewrite Fr.
  - by rewrite Fr.
Qed.

(** X3. No member checks its pointers: on an object as constructed,
    with all three pointers null, every member other than [Initialize]
    dereferences a null pointer.  So a sequence of calls on such an
    object that has a defined result is empty or starts with
    [Initialize]. *)
Theorem defined_calls_start_with_Initialize (h : gmap loc block)
    (cs : list call) :
  is_Some (exec_all cs (fresh_object h)) →
  match cs with [] => True | c :: _ => c = call_Initialize end.
Proof.
  destruct cs as [|c cs]; [done|]. simpl.
  intros [r Hr]. unfold bind in Hr.
  destruct c; try reflexivity; simpl in Hr; discriminate.
Qed.

(** X4. The eight property getters are read-only on every state, live
    or not: each either has no defined result or returns its value and
    leaves the heap and the object exactly as they were. *)
Theorem getters_read_only σ :
  (CurrentFrame σ = None ∨ ∃ v, CurrentFrame σ = Some (v, σ)) ∧
  (NextFrame σ = None ∨ ∃ v, NextFrame σ = Some (v, σ)) ∧
  (SampleRate σ = None ∨ ∃ v, SampleRate σ = Some (v, σ)) ∧
  (Channels σ = None ∨ ∃ v, Channels σ = Some (v, σ)) ∧
  (Output σ = None ∨ ∃ v, Output σ = Some (v, σ)) ∧
  (Error_get σ = None ∨ ∃ v, Error_get σ = Some (v, σ)) ∧
  (ErrorRecoverable σ = None ∨ ∃ v, ErrorRecoverable σ = Some (v, σ)) ∧
  (ErrorMessage σ = None ∨ ∃ v, ErrorMessage σ = Some (v, σ)).
Proof.
  assert (Output σ = None ∨ ∃ v, Output σ = Some (v, σ)) as Ho.
  { unfold Output, bind, get_this, deref, ret, undefined.
    destruct (_Synth (this σ)) as [l|]; [|by left].
    destruct (heap σ !! l); eauto. }
  unfold CurrentFrame, NextFrame, SampleRate, Channels, Error_get,
    ErrorRecoverable, ErrorMessage, bind, ret.
  destruct (load_stream σ) as [[s σ1]|] eqn:Es;
    [apply load_stream_pure in Es as ->|];
    (destruct (load_synth σ) as [[y σ2]|] eqn:Ey;
       [apply load_synth_pure in Ey as ->|]);
    split_and!; eauto.
Qed.

(** ** The stream side and the synthesis side *)

(** X5. [DecodeFrame] hands the engine the frame and the stream only: on
    a live session [SampleRate], [Channels] and [Output] read after it as
    they did before, the synthesiser block is the same, and [CurrentFrame]
    and [NextFrame] show the cursor the engine's decode left. *)
Theorem DecodeFrame_leaves_synthesis_side σ s f y rc f' s' :
  session σ s f y →
  mad_frame_decode f s = (rc, f', s') →
  ∃ (b : bool) σ',
    DecodeFrame σ = Some (b, σ') ∧
    session σ' s' f' y ∧
    observe SampleRate σ' = observe SampleRate σ ∧
    observe Channels σ' = observe Channels σ ∧
    observe Output σ' = observe Output σ ∧
    observe CurrentFrame σ' = Some (this_frame s') ∧
    observe NextFrame σ' = Some (next_frame s') ∧
    this σ' = this σ.
Proof.
  intros S E. apply session_layout in S as (ls & lf & ly & L).
  destruct (DecodeFrame_layout _ _ _ _ _ _ _ _ _ _ L E) as [R L'].
  eexists _, _. split; [exact R|]. split; [apply session_layout; eauto|].
  unfold observe.
  rewrite (SampleRate_layout _ _ _ _ _ _ _ L'), (SampleRate_layout _ _ _ _ _ _ _ L),
    (Channels_layout _ _ _ _ _ _ _ L'), (Channels_layout _ _ _ _ _ _ _ L),
    (Output_layout _ _ _ _ _ _ _ L'), (Output_layout _ _ _ _ _ _ _ L),
    (CurrentFrame_layout _ _ _ _ _ _ _ L'), (NextFrame_layout _ _ _ _ _ _ _ L').
  done.
Qed.

Lemma to_unsigned_long_small (z : Z) :
  0 ≤ z < 2 ^ 31 → to_unsigned_long z = z.
Proof. intros Hz. unfold to_unsigned_long. rewrite Z.mod_small; lia. Qed.

Lemma to_unsigned_long_negative (z : Z) :
  - 2 ^ 31 ≤ z < 0 → to_unsigned_long z = z + 2 ^ 32.
Proof.
  intros Hz. unfold to_unsigned_long.
  rewrite <- (Z_mod_plus_full z 1 (2 ^ 32)). rewrite Z.mod_small; lia.
Qed.

(** X6. [SetInput] rewrites the stream block with the engine's
    [mad_stream_buffer] and nothing else: the frame and synthesiser blocks
    are the same, [SampleRate], [Channels] and [Output] read as before and
    the object's pointers are unchanged.  The length the engine receives
    is the [int] converted to its [unsigned long]: the same number when
    the [int] is not negative, and [Length + 2 ^ 32] (at least [2 ^ 31])
    when it is. *)
Theorem SetInput_touches_stream_only σ s f y (Buffer : ptr) (Length : Z) :
  session σ s f y →
  - 2 ^ 31 ≤ Length < 2 ^ 31 →
  ∃ σ' (length : Z),
    SetInput Buffer Length σ = Some (tt, σ') ∧
    session σ' (mad_stream_buffer s Buffer length) f y ∧
    0 ≤ length < 2 ^ 32 ∧
    (0 ≤ Length → length = Length) ∧
    (Length < 0 → length = Length + 2 ^ 32 ∧ 2 ^ 31 ≤ length) ∧
    observe SampleRate σ' = observe SampleRate σ ∧
    observe Channels σ' = observe Channels σ ∧
    observe Output σ' = observe Output σ ∧
    this σ' = this σ.
Proof.
  intros S HL. apply session_layout in S as (ls & lf & ly & L).
  destruct (SetInput_layout _ _ _ _ _ _ _ Buffer Length L) as [R L'].
  eexists _, (to_unsigned_long Length). split; [exact R|].
  split; [apply session_layout; eauto|].
  split; [apply Z.mod_pos_bound; lia|].
  split; [intros ?; apply to_unsigned_long_small; lia|].
  split; [intros ?; rewrite to_unsigned_long_negative; lia|].
  unfold observe.
  rewrite (SampleRate_layout _ _ _ _ _ _ _ L'), (SampleRate_layout _ _ _ _ _ _ _ L),
    (Channels_layout _ _ _ _ _ _ _ L'), (Channels_layout _ _ _ _ _ _ _ L),
    (Output_layout _ _ _ _ _ _ _ L'), (Output_layout _ _ _ _ _ _ _ L).
  done.
Qed.

(** ** Any use of a live session *)

(** X7. No member ever clears or invalidates one of the three pointers:
    whatever sequence of calls of the public members returns on a live
    session, in any order and [Terminate] and [Initialize] included, the
    state it returns in is a live session again. *)
Theorem calls_keep_session_live σ s f y (cs : list call) σ' :
  session σ s f y →
  exec_all cs σ = Some (tt, σ') →
  ∃ s' f' y', session σ' s' f' y'.
Proof.
  intros S R. apply session_layout in S as (ls & lf & ly & L).
  destruct (exec_all_layout cs _ _ _ _ _ _ _ L)
    as (σ2 & ls' & lf' & ly' & s' & f' & y' & R' & L' & _).
  rewrite R in R'. injection R' as <-.
  exists s', f', y'. apply session_layout. eauto.
Qed.

(** X9. Two sessions on the same native heap do not interfere: the class
    has no shared state.  If another object [d] is live on blocks of its
    own, any sequence of calls on this object leaves the three blocks of
    [d] exactly as they were. *)
Theorem sessions_do_not_interfere σ ls lf ly s f y (d : Decoder)
    (a b c : loc) s2 f2 y2 (cs : list call) :
  layout σ ls lf ly s f y →
  layout (as_object d σ) a b c s2 f2 y2 →
  ({[a; b; c]} : gset loc) ## {[ls; lf; ly]} →
  ∃ σ',
    exec_all cs σ = Some (tt, σ') ∧
    layout (as_object d σ') a b c s2 f2 y2.
Proof.
  intros L L2 Dj.
  destruct (exec_all_layout cs _ _ _ _ _ _ _ L)
    as (σ' & ls' & lf' & ly' & s' & f' & y' & R & _ & Fr & _).
  exists σ'. split; [exact R|].
  assert (∀ x, x ∈ ({[a; b; c]} : gset loc) → x ≠ ls ∧ x ≠ lf ∧ x ≠ ly) as Ne.
  { intros x Hx. split_and!; intros ->; apply (Dj _ Hx); set_solver. }
  destruct (Ne a) as (? & ? & ?); [set_solver|].
  destruct (Ne b) as (? & ? & ?); [set_solver|].
  destruct (Ne c) as (? & ? & ?); [set_solver|].
  clear Dj Ne.
  destruct (layout_in_dom _ _ _ _ _ _ _ L2) as (Da & Db & Dc).
  destruct L2 as (Ht & Ha & Hb & Hc).
  change (heap (as_object d σ)) with (heap σ) in *.
  change (this (as_object d σ)) with d in Ht.
  unfold layout.
  change (heap (as_object d σ')) with (heap σ').
  change (this (as_object d σ')) with d.
  split_and!; [exact Ht | | | ].
  - destruct (Fr a Da) as [-> _]; done.
  - destruct (Fr b Db) as [-> _]; done.
  - destruct (Fr c Dc) as [-> _]; done.
Qed.

(** X15. [Output] is fixed by the synthesiser block: on a live session it
    is the address of the sample array inside the block [_Synth] points
    to, no call of a member other than [Initialize] changes it, and
    another object that is live on a different synthesiser block has a
    different [Output]. *)
Theorem Output_is_fixed_by_the_block σ ls lf ly s f y :
  layout σ ls lf ly s f y →
  observe Output σ = Some (pcm_samples_of ly) ∧
  sample_block (pcm_samples_of ly) σ = Some (samples (pcm y)) ∧
  (∀ (c : call) σ', is_Initialize c = false → exec c σ = Some (tt, σ') →
     observe Output σ' = Some (pcm_samples_of ly)) ∧
  (∀ (d : Decoder) a b c s2 f2 y2,
     layout (as_object d σ) a b c s2 f2 y2 → c ≠ ly →
     observe Output (as_object d σ) ≠ observe Output σ).
Proof.
  intros L. split_and!.
  - unfold observe. by rewrite (Output_layout _ _ _ _ _ _ _ L).
  - destruct L as (_ & _ & _ & Hy). unfold sample_block. by rewrite Hy.
  - intros c σ' Hc R.
    destruct (exec_layout_same _ _ _ _ _ _ _ c Hc L)
      as (σ2 & s' & f' & y' & R' & L' & _).
    rewrite R in R'. injection R' as <-.
    unfold observe. by rewrite (Output_layout _ _ _ _ _ _ _ L').
  - intros d a b c s2 f2 y2 L2 Hne. unfold observe.
    rewrite (Output_layout _ _ _ _ _ _ _ L2), (Output_layout _ _ _ _ _ _ _ L).
    simpl. congruence.
Qed.

(** ** How the members compose *)

(** X10. Of two [Error] assignments in a row only the last one counts:
    on a live session, setting [Error] to [v1] and then to [v2] leaves
    exactly the state that setting it to [v2] alone leaves. *)
Theorem Error_set_last_write_wins σ s f y (v1 v2 : Z) :
  session σ s f y →
  (Error_set v1 ;;; Error_set v2) σ = Error_set v2 σ ∧
  is_Some (Error_set v2 σ).
Proof.
  intros S. apply session_layout in S as (ls & lf & ly & L).
  destruct (Error_set_layout _ _ _ _ _ _ _ v1 L) as [R1 L1].
  destruct (Error_set_layout _ _ _ _ _ _ _ v2 L1) as [R12 _].
  destruct (Error_set_layout _ _ _ _ _ _ _ v2 L) as [R2 _].
  split; [|rewrite R2; eauto].
  unfold bind. rewrite R1, R12, R2. by rewrite written_twice.
Qed.

(** X11. Reading [Error] and assigning the value read back is a no-op
    on a live session: the state afterwards is the state before. *)
Theorem Error_get_then_set_is_noop σ s f y :
  session σ s f y →
  (v <~ Error_get ;; Error_set v) σ = Some (tt, σ).
Proof.
  intros S. apply session_layout in S as (ls & lf & ly & L).
  destruct (Error_set_layout _ _ _ _ _ _ _ (error s) L) as [R _].
  unfold bind. rewrite (Error_get_layout _ _ _ _ _ _ _ L), R.
  destruct L as (_ & Hs & _).
  rewrite written_same; [done|]. by destruct s.
Qed.

(** X12. The stream-side writers commute with [SynthFrame]: on a live
    session, assigning [Error] or installing an input buffer before
    [SynthFrame] leaves the same state as doing it after. *)
Theorem stream_writers_commute_with_SynthFrame σ s f y
    (value : Z) (Buffer : ptr) (Length : Z) :
  session σ s f y →
  (Error_set value ;;; SynthFrame) σ = (SynthFrame ;;; Error_set value) σ ∧
  (SetInput Buffer Length ;;; SynthFrame) σ
    = (SynthFrame ;;; SetInput Buffer Length) σ ∧
  is_Some ((SynthFrame ;;; Error_set value) σ) ∧
  is_Some ((SynthFrame ;;; SetInput Buffer Length) σ).
Proof.
  intros S. apply session_layout in S as (ls & lf & ly & L).
  destruct (layout_distinct _ _ _ _ _ _ _ L) as (Nsf & Nsy & Nfy).
  destruct (mad_synth_frame y f) as [y' f'] eqn:E.
  destruct (SynthFrame_layout _ _ _ _ _ _ _ _ _ L E) as [Ry Ly].
  destruct (Error_set_layout _ _ _ _ _ _ _ value L) as [Re Le].
  destruct (SynthFrame_layout _ _ _ _ _ _ _ _ _ Le E) as [Rey _].
  destruct (Error_set_layout _ _ _ _ _ _ _ value Ly) as [Rye _].
  destruct (SetInput_layout _ _ _ _ _ _ _ Buffer Length L) as [Ri Li].
  destruct (SynthFrame_layout _ _ _ _ _ _ _ _ _ Li E) as [Riy _].
  destruct (SetInput_layout _ _ _ _ _ _ _ Buffer Length Ly) as [Ryi _].
  unfold bind. rewrite Re, Rey, Ry, Rye, Ri, Riy, Ryi.
  split_and!; [ | | eauto | eauto ]; do 2 f_equal.
  - rewrite (written_swap _ ls _ ly) by done.
    by rewrite (written_swap _ ls _ lf) by done.
  - rewrite (written_swap _ ls _ ly) by done.
    by rewrite (written_swap _ ls _ lf) by done.
Qed.

(** ** The integer properties *)

Lemma to_int_range (z : Z) : - 2 ^ 31 ≤ to_int z < 2 ^ 31.
Proof.
  unfold to_int. pose proof (Z.mod_pos_bound (z + 2 ^ 31) (2 ^ 32)). lia.
Qed.

Lemma to_int_small (z : Z) : - 2 ^ 31 ≤ z < 2 ^ 31 → to_int z = z.
Proof. intros Hz. unfold to_int. rewrite Z.mod_small; lia. Qed.

(** X14. On a live session [SampleRate] and [Channels] return a value
    of the managed [int] range; it is the engine's field itself whenever
    that fits, and the field reduced modulo [2 ^ 32] in every case. *)
Theorem SampleRate_Channels_are_ints σ s f y :
  session σ s f y →
  ∃ r c : Z,
    SampleRate σ = Some (r, σ) ∧ Channels σ = Some (c, σ) ∧
    - 2 ^ 31 ≤ r < 2 ^ 31 ∧ - 2 ^ 31 ≤ c < 2 ^ 31 ∧
    r mod 2 ^ 32 = samplerate (pcm y) mod 2 ^ 32 ∧
    c mod 2 ^ 32 = channels (pcm y) mod 2 ^ 32 ∧
    (- 2 ^ 31 ≤ samplerate (pcm y) < 2 ^ 31 → r = samplerate (pcm y)) ∧
    (- 2 ^ 31 ≤ channels (pcm y) < 2 ^ 31 → c = channels (pcm y)).
Proof.
  intros S. apply session_layout in S as (ls & lf & ly & L).
  assert (∀ z, to_int z mod 2 ^ 32 = z mod 2 ^ 32) as Hm.
  { intros z. unfold to_int.
    rewrite Zminus_mod, Zmod_mod, <- Zminus_mod. f_equal. lia. }
  eexists _, _.
  split; [exact (SampleRate_layout _ _ _ _ _ _ _ L)|].
  split; [exact (Channels_layout _ _ _ _ _ _ _ L)|].
  split; [apply to_int_range|]. split; [apply to_int_range|].
  split; [apply Hm|]. split; [apply Hm|].
  split; apply to_int_small.
Qed.

End Coverage.

(** ** The further theorems at work on the small engine *)

Lemma opened_layout :
  layout Demo.opened 1%positive 2%positive 3%positive
    Demo.opened_stream 0 Demo.opened_synth.
Proof. vm_compute. split_and!; reflexivity. Qed.

Lemma second_layout :
  layout Demo.second 4%positive 5%positive 6%positive
    Demo.opened_stream 0 Demo.opened_synth.
Proof. vm_compute. split_and!; reflexivity. Qed.

Lemma first_in_second_layout :
  layout (as_object (this Demo.opened) Demo.second)
    1%positive 2%positive 3%positive Demo.opened_stream 0 Demo.opened_synth.
Proof. vm_compute. split_and!; reflexivity. Qed.

Lemma Initialize_again_abandons_blocks_witness :
  layout Demo.opened 1%positive 2%positive 3%positive
    Demo.opened_stream 0 Demo.opened_synth ∧
  ∃ σ1 ls' lf' ly',
    Initialize Demo.opened = Some (tt, σ1) ∧
    this σ1 = {| _Stream := Some ls'; _Frame := Some lf'; _Synth := Some ly' |} ∧
    ls' ≠ 1%positive ∧ lf' ≠ 2%positive ∧ ly' ≠ 3%positive ∧
    heap σ1 !! 1%positive = Some (BStream Demo.opened_stream) ∧
    heap σ1 !! 2%positive = Some (BFrame 0) ∧
    heap σ1 !! 3%positive = Some (BSynth Demo.opened_synth).
Proof.
  split; [exact opened_layout|].
  exact (Initialize_again_abandons_blocks Demo.opened _ _ _ _ _ _ opened_layout).
Defined.

Lemma DecodeFrame_leaves_synthesis_side_witness :
  session Demo.fed Demo.fed_stream 0 Demo.opened_synth ∧
  ∃ (b : bool) σ',
    DecodeFrame Demo.fed = Some (b, σ') ∧
    observe SampleRate σ' = observe SampleRate Demo.fed ∧
    observe Channels σ' = observe Channels Demo.fed ∧
    observe Output σ' = observe Output Demo.fed ∧
    observe CurrentFrame σ' = Some 1000 ∧
    observe NextFrame σ' = Some 1004.
Proof.
  split; [exact fed_session|].
  destruct (@DecodeFrame_leaves_synthesis_side _ _ _ Demo.engine
              Demo.fed Demo.fed_stream 0 Demo.opened_synth
              0 1 (snd (Demo.decode 0 Demo.fed_stream)) fed_session eq_refl)
    as (b & σ' & R & _ & Hr & Hc & Ho & Hcf & Hnf & _).
  exists b, σ'. split_and!; assumption.
Defined.

Lemma SetInput_touches_stream_only_witness :
  session Demo.opened Demo.opened_stream 0 Demo.opened_synth ∧
  - 2 ^ 31 ≤ -1 < 2 ^ 31 ∧
  ∃ σ' (length : Z),
    SetInput 1000 (-1) Demo.opened = Some (tt, σ') ∧
    session σ' (mad_stream_buffer Demo.opened_stream 1000 length) 0
      Demo.opened_synth ∧
    (-1 < 0 → length = -1 + 2 ^ 32 ∧ 2 ^ 31 ≤ length) ∧
    observe Output σ' = observe Output Demo.opened ∧
    this σ' = this Demo.opened.
Proof.
  assert (- 2 ^ 31 ≤ -1 < 2 ^ 31) as HL by lia.
  split; [exact opened_session|]. split; [exact HL|].
  destruct (SetInput_touches_stream_only Demo.opened Demo.opened_stream 0
              Demo.opened_synth 1000 (-1) opened_session HL)
    as (σ' & len & R & S & _ & _ & Hn & _ & _ & Ho & Ht).
  exists σ', len. split_and!; assumption.
Defined.

Lemma calls_keep_session_live_witness :
  session Demo.opened Demo.opened_stream 0 Demo.opened_synth ∧
  exec_all [call_Error_set 0x0101; call_Terminate; call_Initialize;
            call_ErrorRecoverable; call_Output] Demo.opened
  = Some (tt, Demo.run (exec_all [call_Error_set 0x0101; call_Terminate;
                                  call_Initialize; call_ErrorRecoverable;
                                  call_Output]) Demo.opened) ∧
  ∃ s' f' y',
    session (Demo.run (exec_all [call_Error_set 0x0101; call_Terminate;
                                 call_Initialize; call_ErrorRecoverable;
                                 call_Output]) Demo.opened) s' f' y'.
Proof.
  assert (exec_all [call_Error_set 0x0101; call_Terminate; call_Initialize;
                    call_ErrorRecoverable; call_Output] Demo.opened
          = Some (tt, Demo.run (exec_all [call_Error_set 0x0101; call_Terminate;
                                  call_Initialize; call_ErrorRecoverable;
                                  call_Output]) Demo.opened)) as R
    by (vm_compute; reflexivity).
  split; [exact opened_session|]. split; [exact R|].
  exact (calls_keep_session_live Demo.opened Demo.opened_stream 0
           Demo.opened_synth _ _ opened_session R).
Defined.

Lemma defined_calls_start_with_Initialize_witness :
  is_Some (exec_all [call_Initialize; call_Error_get] (fresh_object ∅)) ∧
  call_Initialize = call_Initialize.
Proof.
  assert (is_Some (@exec_all _ _ _ Demo.engine
                     [call_Initialize; call_Error_get] (fresh_object ∅))) as D
    by (vm_compute; eauto).
  split; [exact D|].
  exact (@defined_calls_start_with_Initialize _ _ _ Demo.engine ∅
           [call_Initialize; call_Error_get] D).
Defined.

Lemma sessions_do_not_interfere_witness :
  layout Demo.second 4%positive 5%positive 6%positive
    Demo.opened_stream 0 Demo.opened_synth ∧
  layout (as_object (this Demo.opened) Demo.second)
    1%positive 2%positive 3%positive Demo.opened_stream 0 Demo.opened_synth ∧
  ({[1%positive; 2%positive; 3%positive]} : gset loc)
    ## {[4%positive; 5%positive; 6%positive]} ∧
  ∃ σ',
    exec_all [call_SetInput 1000 8; call_DecodeFrame; call_Error_set 5;
              call_SynthFrame; call_Terminate] Demo.second = Some (tt, σ') ∧
    layout (as_object (this Demo.opened) σ')
      1%positive 2%positive 3%positive Demo.opened_stream 0 Demo.opened_synth.
Proof.
  assert (({[1%positive; 2%positive; 3%positive]} : gset loc)
            ## {[4%positive; 5%positive; 6%positive]}) as Dj
    by (apply (bool_decide_eq_true_1 _); vm_compute; reflexivity).
  split; [exact second_layout|]. split; [exact first_in_second_layout|].
  split; [exact Dj|].
  exact (sessions_do_not_interfere Demo.second _ _ _ _ _ _ (this Demo.opened)
           _ _ _ _ _ _ _ second_layout first_in_second_layout Dj).
Defined.

Lemma Error_set_last_write_wins_witness :
  session Demo.short Demo.short_stream 0 Demo.opened_synth ∧
  (Error_set 0x0235 ;;; Error_set 0) Demo.short = Error_set 0 Demo.short ∧
  is_Some (Error_set 0 Demo.short).
Proof.
  split; [exact short_session|].
  exact (Error_set_last_write_wins Demo.short Demo.short_stream 0
           Demo.opened_synth 0x0235 0 short_session).
Defined.

Lemma Error_get_then_set_is_noop_witness :
  session Demo.short Demo.short_stream 0 Demo.opened_synth ∧
  (v <~ Error_get ;; Error_set v) Demo.short = Some (tt, Demo.short).
Proof.
  split; [exact short_session|].
  exact (Error_get_then_set_is_noop Demo.short Demo.short_stream 0
           Demo.opened_synth short_session).
Defined.

Lemma stream_writers_commute_with_SynthFrame_witness :
  session Demo.fed Demo.fed_stream 0 Demo.opened_synth ∧
  (Error_set 0x0101 ;;; SynthFrame) Demo.fed
    = (SynthFrame ;;; Error_set 0x0101) Demo.fed ∧
  (SetInput 2000 16 ;;; SynthFrame) Demo.fed
    = (SynthFrame ;;; SetInput 2000 16) Demo.fed ∧
  is_Some ((SynthFrame ;;; Error_set 0x0101) Demo.fed) ∧
  is_Some ((SynthFrame ;;; SetInput 2000 16) Demo.fed).
Proof.
  split; [exact fed_session|].
  exact (stream_writers_commute_with_SynthFrame Demo.fed Demo.fed_stream 0
           Demo.opened_synth 0x0101 2000 16 fed_session).
Defined.

Lemma SampleRate_Channels_are_ints_witness :
  session Demo.fed Demo.fed_stream 0 Demo.opened_synth ∧
  ∃ r c : Z,
    SampleRate Demo.fed = Some (r, Demo.fed) ∧
    Channels Demo.fed = Some (c, Demo.fed) ∧
    - 2 ^ 31 ≤ r < 2 ^ 31 ∧ - 2 ^ 31 ≤ c < 2 ^ 31.
Proof.
  split; [exact fed_session|].
  destruct (SampleRate_Channels_are_ints Demo.fed Demo.fed_stream 0
              Demo.opened_synth fed_session)
    as (r & c & Hr & Hc & Br & Bc & _).
  exists r, c. exact (conj Hr (conj Hc (conj Br Bc))).
Defined.

Lemma Output_is_fixed_by_the_block_witness :
  layout Demo.second 4%positive 5%positive 6%positive
    Demo.opened_stream 0 Demo.opened_synth ∧
  observe Output Demo.second = Some (pcm_samples_of 6%positive) ∧
  observe Output (as_object (this Demo.opened) Demo.second)
    ≠ observe Output Demo.second.
Proof.
  split; [exact second_layout|].
  destruct (Output_is_fixed_by_the_block Demo.second _ _ _ _ _ _ second_layout)
    as (Ho & _ & _ & Hd).
  split; [exact Ho|].
  apply (Hd _ _ _ _ _ _ _ first_in_second_layout). done.
Defined.

End MAD.
